(** * url_opener_v2: redirect classification and navigation interception

    A shallow embedding of the navigation handlers of [electron.js] (main
    process) and of [src/components/EmbeddedBrowser.js] and
    [src/components/UrlHistory.js] (renderer), together with the properties
    the written specification states about them.

    JavaScript strings are [string]; the query object produced by the legacy
    [url.parse(u, true)] is a [gmap string qvalue]; React state is a record
    threaded through a small state/exception/output monad; things the
    handlers do to the outside world (IPC messages, dialogs, [loadURL], the
    console) are recorded as a list of effects. *)

From stdpp Require Import base strings list gmap.
From Stdlib Require Import ZArith Ascii String.

Local Open Scope string_scope.
Local Open Scope bool_scope.
Local Open Scope list_scope.

(* ===================================================================== *)
(** ** JavaScript strings *)
(* ===================================================================== *)

Module JsString.

(** [s.startsWith(k)] *)
Fixpoint startsWith (s k : string) {struct k} : bool :=
  match k with
  | EmptyString => true
  | String c k' =>
      match s with
      | EmptyString => false
      | String d s' => if Ascii.eqb c d then startsWith s' k' else false
      end
  end.

(** [s.includes(k)]: [k] occurs in [s] at some position. *)
Fixpoint includes (s k : string) : bool :=
  startsWith s k ||
  match s with
  | EmptyString => false
  | String _ s' => includes s' k
  end.

(** Truthiness of a string value: only the empty string is falsy. *)
Definition truthy (s : string) : bool :=
  match s with EmptyString => false | String _ _ => true end.

(** The declarative reading of "the URL contains the keyword". *)
Definition contains (s k : string) : Prop :=
  exists pre post, s = pre +:+ k +:+ post.

End JsString.

Import JsString.

(* ===================================================================== *)
(** ** Library interface: the URL parsers the handlers call *)
(* ===================================================================== *)

(** A value of the object built by [url.parse(u, true).query]: a string, or
    an array of strings when the name is repeated. *)
Inductive qvalue :=
| QString (s : string)
| QArray (l : list string).

(** JavaScript truthiness of [query.name]: [undefined] and [''] are falsy,
    every array is truthy. *)
Definition qtruthy (v : option qvalue) : bool :=
  match v with
  | None => false
  | Some (QString s) => truthy s
  | Some (QArray _) => true
  end.

(** Truthiness of [params.get(name)]: [null] and [''] are falsy. *)
Definition otruthy (v : option string) : bool :=
  match v with
  | None => false
  | Some s => truthy s
  end.

(** The two fields of a WHATWG [URL] object that the renderer reads. *)
Record URL := { u_search : string; u_hash : string }.

(** The parsers belong to Node and to the browser engine, not to this
    repository; the handlers are written against this interface.
    - [url_parse_query u] is [url.parse(u, true).query], [None] when
      [url.parse] throws (a [URIError] for user information that cannot be
      decoded, an invalid-URL error for some host names);
    - [new_URL u] is [new URL(u)], [None] when the constructor throws;
    - [URLSearchParams_get init name] is
      [new URLSearchParams(init).get(name)], [None] for [null]. *)
Class UrlLibrary := {
  url_parse_query : string -> option (gmap string qvalue);
  new_URL : string -> option URL;
  URLSearchParams_get : string -> string -> option string
}.

(* ===================================================================== *)
(** ** Data model and observable effects *)
(* ===================================================================== *)

(** The payload of ['log-url-opened']; [batchId] is a component prop and
    may be undefined. *)
Record HistoryEntry := {
  url : string;
  timestamp : string;
  batchId : option Z
}.

Inductive effect :=
| ConsoleLog (msg arg : string)
| ConsoleError (msg : string)
| WebContentsSend (channel arg : string)   (* mainWindow.webContents.send *)
| ShowMessageBox (title message : string)   (* dialog.showMessageBox *)
| ShowSaveDialog (title : string)           (* dialog.showSaveDialog *)
| LaunchExternalBrowser (target : string)   (* the native shell.openExternal *)
| AppQuit
| IpcSend (channel : string) (data : HistoryEntry) (* ipcRenderer.send *)
| WebviewLoadURL (target : string)          (* webview.loadURL *)
| OnNavigate (target : string)              (* the onNavigate prop *)
| InjectScript                              (* webview.executeJavaScript *)
| PreventDefault.

Inductive window_open_action := ActionDeny | ActionAllow.

(** How a piece of code ends: normally with a value, or by throwing. *)
Inductive completion (A : Type) :=
| Normal (a : A)
| Thrown (e : string).
Arguments Normal {A} a.
Arguments Thrown {A} e.

Inductive promise := PromiseResolved | PromiseNative.

(* ===================================================================== *)
(** ** Main process: electron.js *)
(* ===================================================================== *)

Record BrowserWindow := { isDestroyed : bool }.

(** The module variable [mainWindow]: declared without a value, assigned a
    window by [createWindow], and set to [null] when the window closes. *)
Inductive window_ref :=
| WUndefined
| WNull
| WLive (w : BrowserWindow).

(** What [shell.openExternal] is currently bound to. *)
Inductive openExternal_impl := NativeOpenExternal | BlockedOpenExternal.

Record MainState := {
  mainWindow : window_ref;
  urlHistory : list HistoryEntry;
  shell_openExternal : openExternal_impl
}.

(** The module-level bindings before any [app] event has fired. *)
Definition initial_main : MainState :=
  {| mainWindow := WUndefined; urlHistory := [];
     shell_openExternal := NativeOpenExternal |}.

Definition external_disabled_title : string := "External Browser Disabled".
Definition external_disabled_message : string :=
  "External browser opening has been disabled. Please use the embedded browser only.".

(** [mainWindow && !mainWindow.isDestroyed()] *)
Definition mainWindow_alive (st : MainState) : bool :=
  match mainWindow st with
  | WLive w => negb (isDestroyed w)
  | _ => false
  end.

(** The function assigned to [shell.openExternal] in the
    ['will-finish-launching'] and ['ready'] handlers. *)
Definition blocked_openExternal (target : string) : list effect * promise :=
  ([ConsoleLog "Blocked attempt to open external browser with URL:" target],
   PromiseResolved).

(** A call [shell.openExternal(target)] under the current binding. *)
Definition call_openExternal (st : MainState) (target : string)
  : list effect * promise :=
  match shell_openExternal st with
  | NativeOpenExternal => ([LaunchExternalBrowser target], PromiseNative)
  | BlockedOpenExternal => blocked_openExternal target
  end.

Definition createWindow (st : MainState) : MainState :=
  {| mainWindow := WLive {| isDestroyed := false |};
     urlHistory := urlHistory st;
     shell_openExternal := shell_openExternal st |}.

Definition override_openExternal (st : MainState) : MainState :=
  {| mainWindow := mainWindow st;
     urlHistory := urlHistory st;
     shell_openExternal := BlockedOpenExternal |}.

(** [ipcMain.on('log-url-opened', ...)]: [urlHistory.push(data)]. *)
Definition on_log_url_opened (st : MainState) (data : HistoryEntry)
  : MainState * list effect :=
  ({| mainWindow := mainWindow st;
      urlHistory := urlHistory st ++ [data];
      shell_openExternal := shell_openExternal st |},
   [ConsoleLog "URL opened:" (url data)]).

Section MainHandlers.
Context `{UrlLibrary}.

(** [parsedUrl.query.token || parsedUrl.query.code ||
    parsedUrl.query.access_token] on the parsed query. *)
Definition query_has_token (q : gmap string qvalue) : bool :=
  qtruthy (q !! "token") || qtruthy (q !! "code") || qtruthy (q !! "access_token").

(** The condition of [onBeforeRedirect] (lines 139-147), [q] being
    [parsedUrl.query]. *)
Definition redirect_is_oauth (redirectUrl : string) (q : gmap string qvalue)
  : bool :=
  (includes redirectUrl "auth" ||
   includes redirectUrl "oauth" ||
   includes redirectUrl "signin" ||
   includes redirectUrl "login" ||
   includes redirectUrl "sso" ||
   includes redirectUrl "callback") &&
  query_has_token q.

(** [mainSession.webRequest.onBeforeRedirect] (lines 132-155): the URL is
    logged, then parsed outside any [try], so an exception of [url.parse]
    leaves the listener. The result is how the listener ends and what it
    did before. *)
Definition onBeforeRedirect (st : MainState) (redirectUrl : string)
  : completion unit * list effect :=
  match url_parse_query redirectUrl with
  | None =>
      (Thrown "url.parse", [ConsoleLog "Redirect detected:" redirectUrl])
  | Some q =>
      (Normal tt,
       ConsoleLog "Redirect detected:" redirectUrl ::
       (if redirect_is_oauth redirectUrl q then
          ConsoleLog "OAuth redirect detected:" redirectUrl ::
          (if mainWindow_alive st
           then [WebContentsSend "handle-auth-redirect" redirectUrl]
           else [])
        else []))
  end.

(** The condition of the main-process ['will-navigate'] handler
    (lines 280-288). *)
Definition navigation_is_oauth (navigateUrl : string) (q : gmap string qvalue)
  : bool :=
  (includes navigateUrl "auth" ||
   includes navigateUrl "oauth" ||
   includes navigateUrl "signin" ||
   includes navigateUrl "login" ||
   includes navigateUrl "sso" ||
   includes navigateUrl "callback") &&
  query_has_token q.

(** [contents.on('will-navigate', ...)] (lines 273-291): logging only,
    with the same unguarded [url.parse]. *)
Definition on_will_navigate (navigateUrl : string)
  : completion unit * list effect :=
  match url_parse_query navigateUrl with
  | None =>
      (Thrown "url.parse", [ConsoleLog "Navigation in webview:" navigateUrl])
  | Some q =>
      (Normal tt,
       ConsoleLog "Navigation in webview:" navigateUrl ::
       (if navigation_is_oauth navigateUrl q
        then [ConsoleLog "OAuth navigation detected:" navigateUrl]
        else []))
  end.

(** The condition of [setWindowOpenHandler] (lines 299-307): the keyword
    test and the parameter test are joined by [||]. *)
Definition window_open_is_auth (openUrl : string) (q : gmap string qvalue)
  : bool :=
  (includes openUrl "auth" ||
   includes openUrl "login" ||
   includes openUrl "sso" ||
   includes openUrl "oauth" ||
   includes openUrl "signin" ||
   includes openUrl "callback") ||
  query_has_token q.

(** [contents.setWindowOpenHandler] (lines 294-324): the URL is logged and
    parsed, again outside any [try]; when [url.parse] throws the handler
    returns no action. *)
Definition setWindowOpenHandler (st : MainState) (openUrl : string)
  : completion window_open_action * list effect :=
  match url_parse_query openUrl with
  | None =>
      (Thrown "url.parse", [ConsoleLog "Attempted to open new window:" openUrl])
  | Some q =>
      (Normal ActionDeny,
       ConsoleLog "Attempted to open new window:" openUrl ::
       (if window_open_is_auth openUrl q then
          (if mainWindow_alive st
           then [WebContentsSend "handle-auth-redirect" openUrl]
           else [])
        else
          [ShowMessageBox external_disabled_title external_disabled_message]))
  end.

(** Events delivered to the main process. [CallOpenExternal] stands for
    any code of the main process calling [shell.openExternal]. *)
Inductive main_event :=
| AppWillFinishLaunching
| AppReady
| AppWindowAllClosed (darwin : bool)
| AppActivate
| MainWindowClosed
| IpcLogUrlOpened (data : HistoryEntry)
| IpcOpenBatch
| IpcDownloadPdf (filePath : option string)
| IpcOpenExternal (target : string)
| BeforeRedirect (redirectUrl : string)
| ContentsWillNavigate (navigateUrl : string)
| WindowOpen (openUrl : string)
| CallOpenExternal (target : string).

(** One event of the main process. The two ['ready'] listeners run in
    registration order: the first rebinds [shell.openExternal], the second
    calls [createWindow] and configures the session, which is where the
    redirect listener is installed. A listener that throws leaves the state
    as it is; what it did before throwing stays done. *)
Definition main_step (st : MainState) (ev : main_event)
  : MainState * list effect :=
  match ev with
  | AppWillFinishLaunching => (override_openExternal st, [])
  | AppReady => (createWindow (override_openExternal st), [])
  | AppWindowAllClosed darwin => (st, if darwin then [] else [AppQuit])
  | AppActivate =>
      (* if (mainWindow === null) createWindow() *)
      (match mainWindow st with WNull => createWindow st | _ => st end, [])
  | MainWindowClosed =>
      ({| mainWindow := WNull;
          urlHistory := urlHistory st;
          shell_openExternal := shell_openExternal st |}, [])
  | IpcLogUrlOpened data => on_log_url_opened st data
  | IpcOpenBatch =>
      (st, [ShowMessageBox "In-App Browser Only"
              "Please use the embedded browser to view URLs. External browser windows have been disabled."])
  | IpcDownloadPdf filePath =>
      (st, ShowSaveDialog "Save PDF" ::
           match filePath with
           | Some p =>
               if truthy p then
                 [ShowMessageBox "PDF Download"
                    ("PDF download feature is being implemented. Would save to: " +:+ p)]
               else []
           | None => []
           end)
  | IpcOpenExternal _ =>
      (st, [ShowMessageBox external_disabled_title external_disabled_message])
  | BeforeRedirect u => (st, (onBeforeRedirect st u).2)
  | ContentsWillNavigate u => (st, (on_will_navigate u).2)
  | WindowOpen u => (st, (setWindowOpenHandler st u).2)
  | CallOpenExternal target => (st, (call_openExternal st target).1)
  end.

(** Running a sequence of events, collecting the effects in order. *)
Fixpoint main_run (st : MainState) (evs : list main_event)
  : MainState * list effect :=
  match evs with
  | [] => (st, [])
  | ev :: evs' =>
      let '(st1, out1) := main_step st ev in
      let '(st2, out2) := main_run st1 evs' in
      (st2, out1 ++ out2)
  end.

End MainHandlers.

(* ===================================================================== *)
(** ** Renderer: src/components/EmbeddedBrowser.js *)
(* ===================================================================== *)

(** The React state of one [EmbeddedBrowser] instance. *)
Record RendererState := {
  currentUrl : string;
  title : string;
  isLoading : bool;
  canGoBack : bool;
  canGoForward : bool;
  isWebviewReady : bool;
  authInProgress : bool
}.

(** The [useState] initial values for the prop [url]. *)
Definition initial_renderer (url0 : string) : RendererState :=
  {| currentUrl := url0; title := ""; isLoading := false;
     canGoBack := false; canGoForward := false;
     isWebviewReady := false; authInProgress := false |}.

(** The two states of the interception policy. *)
Inductive AuthState := Idle | AuthPending.

Definition session_state (st : RendererState) : AuthState :=
  if authInProgress st then AuthPending else Idle.

(** What the handlers ask of the [<webview>] element at the time of an
    event: the URL it shows, whether it has a [loadURL] method, and for
    which targets a call of [loadURL] throws. *)
Record Webview := {
  getURL : string;
  getTitle : string;
  wv_canGoBack : bool;
  wv_canGoForward : bool;
  has_loadURL : bool;
  loadURL_throws : string -> bool
}.

(** *** Handler monad: state, output and exceptions *)

Definition R (A : Type) : Type :=
  RendererState -> completion A * RendererState * list effect.

Definition ret {A} (a : A) : R A := fun st => (Normal a, st, []).

Definition bind {A B} (m : R A) (k : A -> R B) : R B :=
  fun st =>
    match m st with
    | (Normal a, st1, out1) =>
        let '(r, st2, out2) := k a st1 in (r, st2, out1 ++ out2)
    | (Thrown e, st1, out1) => (Thrown e, st1, out1)
    end.

Definition throw {A} (e : string) : R A := fun st => (Thrown e, st, []).

(** [try { body } catch (e) { handler(e) }] *)
Definition try_catch {A} (body : R A) (handler : string -> R A) : R A :=
  fun st =>
    match body st with
    | (Normal a, st1, out1) => (Normal a, st1, out1)
    | (Thrown e, st1, out1) =>
        let '(r, st2, out2) := handler e st1 in (r, st2, out1 ++ out2)
    end.

Definition emit (e : effect) : R unit := fun st => (Normal tt, st, [e]).

Definition read {A} (f : RendererState -> A) : R A :=
  fun st => (Normal (f st), st, []).

Notation "x <- m ;; k" := (bind m (fun x => k))
  (at level 100, m at next level, right associativity).
Notation "m ;; k" := (bind m (fun _ => k))
  (at level 100, right associativity).

Definition setCurrentUrl (v : string) : R unit := fun st =>
  (Normal tt,
   {| currentUrl := v; title := title st; isLoading := isLoading st;
      canGoBack := canGoBack st; canGoForward := canGoForward st;
      isWebviewReady := isWebviewReady st;
      authInProgress := authInProgress st |}, []).

Definition setTitle (v : string) : R unit := fun st =>
  (Normal tt,
   {| currentUrl := currentUrl st; title := v; isLoading := isLoading st;
      canGoBack := canGoBack st; canGoForward := canGoForward st;
      isWebviewReady := isWebviewReady st;
      authInProgress := authInProgress st |}, []).

Definition setIsLoading (v : bool) : R unit := fun st =>
  (Normal tt,
   {| currentUrl := currentUrl st; title := title st; isLoading := v;
      canGoBack := canGoBack st; canGoForward := canGoForward st;
      isWebviewReady := isWebviewReady st;
      authInProgress := authInProgress st |}, []).

Definition setCanGoBack (v : bool) : R unit := fun st =>
  (Normal tt,
   {| currentUrl := currentUrl st; title := title st; isLoading := isLoading st;
      canGoBack := v; canGoForward := canGoForward st;
      isWebviewReady := isWebviewReady st;
      authInProgress := authInProgress st |}, []).

Definition setCanGoForward (v : bool) : R unit := fun st =>
  (Normal tt,
   {| currentUrl := currentUrl st; title := title st; isLoading := isLoading st;
      canGoBack := canGoBack st; canGoForward := v;
      isWebviewReady := isWebviewReady st;
      authInProgress := authInProgress st |}, []).

Definition setAuthInProgress (v : bool) : R unit := fun st =>
  (Normal tt,
   {| currentUrl := currentUrl st; title := title st; isLoading := isLoading st;
      canGoBack := canGoBack st; canGoForward := canGoForward st;
      isWebviewReady := isWebviewReady st;
      authInProgress := v |}, []).

(** [webview.loadURL(target)]: the load is started unless the call throws. *)
Definition loadURL (wv : Webview) (target : string) : R unit :=
  if loadURL_throws wv target
  then throw "loadURL"
  else emit (WebviewLoadURL target).

(** [s.substring(1)] *)
Definition substring1 (s : string) : string :=
  match s with
  | EmptyString => EmptyString
  | String _ s' => s'
  end.

Section RendererHandlers.
Context `{UrlLibrary}.

(** The listener for ['handle-auth-redirect'] (lines 58-71);
    [webviewRef.current] may be null. *)
Definition handleAuthRedirect (wvref : option Webview) (redirectUrl : string)
  : R unit :=
  emit (ConsoleLog "Auth redirect received:" redirectUrl) ;;
  setAuthInProgress true ;;
  ready <- read isWebviewReady ;;
  match wvref with
  | Some wv =>
      if ready && has_loadURL wv then
        try_catch
          (loadURL wv redirectUrl ;; setCurrentUrl redirectUrl)
          (fun _ => emit (ConsoleError "Error loading redirect URL:"))
      else ret tt
  | None => ret tt
  end.

Definition handleDidStartLoading : R unit := setIsLoading true.

(** The substring gate of [handleDidStopLoading] (lines 163-167). *)
Definition looks_like_callback (finalUrl : string) : bool :=
  includes finalUrl "callback" ||
  includes finalUrl "token" ||
  includes finalUrl "auth" ||
  includes finalUrl "code" ||
  includes finalUrl "access_token".

(** The test of lines 178-179 on a parsed URL. *)
Definition token_detected (urlObj : URL) : bool :=
  let params := URLSearchParams_get (u_search urlObj) in
  let hashParams :=
    URLSearchParams_get
      (if truthy (u_hash urlObj) then substring1 (u_hash urlObj) else "") in
  otruthy (params "code") || otruthy (params "token") ||
  otruthy (params "access_token") || otruthy (hashParams "access_token").

(** [new URL(finalUrl)] inside the handler monad. *)
Definition construct_URL (u : string) : R URL :=
  match new_URL u with
  | Some urlObj => ret urlObj
  | None => throw "TypeError: Invalid URL"
  end.

(** [handleDidStopLoading] (lines 157-196); [now] is
    [new Date().toISOString()] and [batch] the [batchId] prop. *)
Definition handleDidStopLoading (wv : Webview) (batch : option Z)
    (now : string) : R unit :=
  setIsLoading false ;;
  let finalUrl := getURL wv in
  pending <- read authInProgress ;;
  (if pending && looks_like_callback finalUrl then
     emit (ConsoleLog "Potential OAuth callback URL:" finalUrl) ;;
     try_catch
       (urlObj <- construct_URL finalUrl ;;
        if token_detected urlObj then
          emit (ConsoleLog "Auth token detected in URL" "") ;;
          setAuthInProgress false
        else ret tt)
       (fun _ => emit (ConsoleError "Error parsing auth URL:"))
   else ret tt) ;;
  emit (IpcSend "log-url-opened"
          {| url := getURL wv; timestamp := now; batchId := batch |}).

(** [handleDidFinishLoad] (lines 198-276); [hasOnNavigate] tells whether
    the [onNavigate] prop was given. *)
Definition handleDidFinishLoad (wv : Webview) (hasOnNavigate : bool) : R unit :=
  setTitle (getTitle wv) ;;
  setCanGoBack (wv_canGoBack wv) ;;
  setCanGoForward (wv_canGoForward wv) ;;
  setCurrentUrl (getURL wv) ;;
  (if hasOnNavigate then emit (OnNavigate (getURL wv)) else ret tt) ;;
  emit InjectScript.

(** [handleWillNavigate] (lines 278-290). *)
Definition handleWillNavigate (target : string) : R unit :=
  emit (ConsoleLog "Will navigate to:" target) ;;
  setCurrentUrl target ;;
  if includes target "oauth" ||
     includes target "auth" ||
     includes target "login" ||
     includes target "sso"
  then
    emit (ConsoleLog "Navigating to potential auth URL" "") ;;
    setAuthInProgress true
  else ret tt.

(** The condition of [handleNewWindow] (lines 300-304). *)
Definition new_window_is_auth (target : string) : bool :=
  includes target "auth" ||
  includes target "login" ||
  includes target "sso" ||
  includes target "oauth" ||
  includes target "callback".

(** [handleNewWindow] (lines 292-318). *)
Definition handleNewWindow (wv : Webview) (target : string) : R unit :=
  emit PreventDefault ;;
  emit (ConsoleLog "New window requested for URL:" target) ;;
  if new_window_is_auth target then
    emit (ConsoleLog "Auth URL detected in new window request" "") ;;
    setAuthInProgress true ;;
    if has_loadURL wv then
      try_catch
        (loadURL wv target ;; setCurrentUrl target)
        (fun _ => emit (ConsoleError "Error loading new window URL:"))
    else ret tt
  else ret tt.

(** [-3] is [ERR_ABORTED]. *)
Definition ERR_ABORTED : Z := (-3)%Z.

(** [handleLoadFailed] (lines 363-376). *)
Definition handleLoadFailed (errorCode : Z) (errorDescription validatedURL : string)
  : R unit :=
  emit (ConsoleLog "Webview load failed:" errorDescription) ;;
  pending <- read authInProgress ;;
  if pending then
    emit (ConsoleLog "Auth in progress, ignoring load error" "")
  else
    if negb (errorCode =? ERR_ABORTED)%Z then
      setTitle ("Error loading page: " +:+ errorDescription)
    else ret tt.

(** Events delivered to the component once its listeners are registered
    (Electron environment, webview ready). *)
Inductive renderer_event :=
| DidStartLoading
| DidStopLoading (batch : option Z) (now : string)
| DidFinishLoad (hasOnNavigate : bool)
| WillNavigate (target : string)
| NewWindow (target : string)
| DidFailLoad (errorCode : Z) (errorDescription validatedURL : string)
| AuthRedirectMessage (redirectUrl : string).

Definition renderer_handler (wv : Webview) (ev : renderer_event) : R unit :=
  match ev with
  | DidStartLoading => handleDidStartLoading
  | DidStopLoading batch now => handleDidStopLoading wv batch now
  | DidFinishLoad hasOnNavigate => handleDidFinishLoad wv hasOnNavigate
  | WillNavigate target => handleWillNavigate target
  | NewWindow target => handleNewWindow wv target
  | DidFailLoad code desc validated => handleLoadFailed code desc validated
  | AuthRedirectMessage u => handleAuthRedirect (Some wv) u
  end.

(** The state after a handler and what it emitted. *)
Definition state_after {A} (m : R A) (st : RendererState) : RendererState :=
  (m st).1.2.
Definition output_of {A} (m : R A) (st : RendererState) : list effect :=
  (m st).2.
Definition result_of {A} (m : R A) (st : RendererState) : completion A :=
  (m st).1.1.

End RendererHandlers.

(* ===================================================================== *)
(** ** Renderer: src/components/UrlHistory.js and the history channel *)
(* ===================================================================== *)

(** The channels [electron.js] listens on with [ipcMain.on]. *)
Definition ipcMain_on_channels : list string :=
  ["log-url-opened"; "open-batch"; "download-pdf"; "open-external"].

(** The handlers [electron.js] registers with [ipcMain.handle], the only
    kind [ipcRenderer.invoke] can reach: the file registers none. *)
Definition ipcMain_handle_registry
  : list (string * (MainState -> option (list HistoryEntry))) := [].

Fixpoint find_handler {A} (channel : string) (reg : list (string * A)) : option A :=
  match reg with
  | [] => None
  | (c, h) :: reg' => if String.eqb c channel then Some h else find_handler channel reg'
  end.

(** [await ipcRenderer.invoke(channel)]: the promise is rejected when no
    handler is registered for the channel. *)
Definition ipcRenderer_invoke (main : MainState) (channel : string)
  : completion (option (list HistoryEntry)) :=
  match find_handler channel ipcMain_handle_registry with
  | Some h => Normal (h main)
  | None => Thrown ("No handler registered for '" +:+ channel +:+ "'")
  end.

Record HistoryView := {
  hv_urlHistory : list HistoryEntry;
  hv_isLoading : bool
}.

Definition initial_history_view : HistoryView :=
  {| hv_urlHistory := []; hv_isLoading := true |}.

(** [loadHistory] (lines 43-73). [now] and [hourAgo] are the two
    timestamps of the sample data of the browser mode. *)
Definition loadHistory (isElectron : bool) (main : MainState)
    (now hourAgo : string) (hv : HistoryView) : HistoryView * list effect :=
  if isElectron then
    match ipcRenderer_invoke main "get-opened-urls" with
    | Normal history =>
        ({| hv_urlHistory := default [] history; hv_isLoading := false |}, [])
    | Thrown _ =>
        ({| hv_urlHistory := hv_urlHistory hv; hv_isLoading := false |},
         [ConsoleError "Failed to load URL history:"])
    end
  else
    ({| hv_urlHistory :=
          [ {| url := "https://app.fieldnation.com/workorders/sample1";
               timestamp := now; batchId := Some 1%Z |};
            {| url := "https://app.fieldnation.com/workorders/sample2";
               timestamp := hourAgo; batchId := Some 1%Z |} ];
        hv_isLoading := false |}, []).

(* ===================================================================== *)
(** ** A reference instance of the library interface *)
(* ===================================================================== *)

(** [toLowerCase] on ASCII text: the letters A-Z are mapped to a-z. *)
Definition lower_ascii (c : ascii) : ascii :=
  let n := nat_of_ascii c in
  if (65 <=? n)%nat && (n <=? 90)%nat then ascii_of_nat (n + 32) else c.

Fixpoint toLowerCase_ascii (s : string) : string :=
  match s with
  | EmptyString => EmptyString
  | String c s' => String (lower_ascii c) (toLowerCase_ascii s')
  end.

(** Executable parsers used to evaluate the handlers on concrete URLs.
    Every general theorem below holds for an arbitrary [UrlLibrary]; only
    closed examples use this instance. Strings are read as byte strings.
    The parsers follow Node's legacy [url.parse] with [querystring.parse]
    and the WHATWG [URL] and [URLSearchParams] objects as far as the
    handlers can observe them: where the query and the fragment lie, which
    names the query holds and with what values (percent escapes and ['+']
    decoded), the [URIError] of [url.parse] for user information that
    [decodeURIComponent] rejects, and the rejection by [new URL] of a
    string without scheme, of an http-like URL without host or with a
    forbidden character in its host, and of a port that is not a number
    below 65536. Not covered: errors of [url.parse] for host names (they
    depend on the Node version), internationalised and numeric host names,
    and the replacement character Node puts for escaped bytes that are not
    UTF-8 (it changes neither a name the handlers look up nor whether a
    value is empty). *)
Module Reference.

(** Split at the first occurrence of [c]. *)
Fixpoint cut (c : ascii) (s : string) : string * option string :=
  match s with
  | EmptyString => (EmptyString, None)
  | String d s' =>
      if Ascii.eqb c d then (EmptyString, Some s')
      else let '(before, after) := cut c s' in (String d before, after)
  end.

(** [s.split(c)] *)
Fixpoint split_on (c : ascii) (s : string) : list string :=
  match s with
  | EmptyString => [EmptyString]
  | String d s' =>
      if Ascii.eqb c d then EmptyString :: split_on c s'
      else match split_on c s' with
           | piece :: rest => String d piece :: rest
           | [] => [String d EmptyString]
           end
  end.

Definition code (c : ascii) : N := N_of_ascii c.

Definition between (lo hi n : N) : bool := (lo <=? n)%N && (n <=? hi)%N.

Definition hex_value (c : ascii) : option N :=
  let n := code c in
  if between 48 57 n then Some (n - 48)%N
  else if between 65 70 n then Some (n - 55)%N
  else if between 97 102 n then Some (n - 87)%N
  else None.

(** A string cut into plain characters, well-formed escapes [%XX] and
    percent signs that start no escape. *)
Inductive token :=
| Lit (c : ascii)
| Esc (b : N)
| Bad.

Fixpoint tokens (s : string) : list token :=
  match s with
  | EmptyString => []
  | String c s' =>
      if Ascii.eqb c "%" then
        match s' with
        | String h (String l s'') =>
            match hex_value h, hex_value l with
            | Some a, Some b => Esc (16 * a + b)%N :: tokens s''
            | _, _ => Bad :: tokens s'
            end
        | _ => Bad :: tokens s'
        end
      else Lit c :: tokens s'
  end.

(** Decoding of one query name or value, as [querystring.unescape] and the
    form-urlencoded parser do it: ['+'] is a space, a well-formed escape is
    its byte, any other percent sign stays. *)
Definition unescape (s : string) : string :=
  foldr (fun t acc =>
           match t with
           | Lit c => String (if Ascii.eqb c "+" then " "%char else c) acc
           | Esc b => String (ascii_of_N b) acc
           | Bad => String "%" acc
           end) EmptyString (tokens s).

(** The continuation bytes a UTF-8 lead byte asks for, as ranges. *)
Definition lead_ranges (b : N) : option (list (N * N)) :=
  let cont := (128, 191)%N in
  if (b <? 128)%N then Some []
  else if between 194 223 b then Some [cont]
  else if (b =? 224)%N then Some [(160, 191)%N; cont]
  else if (b =? 237)%N then Some [(128, 159)%N; cont]
  else if between 225 239 b then Some [cont; cont]
  else if (b =? 240)%N then Some [(144, 191)%N; cont; cont]
  else if between 241 243 b then Some [cont; cont; cont]
  else if (b =? 244)%N then Some [(128, 143)%N; cont; cont]
  else None.

(** Does [decodeURIComponent] accept the tokens? Every percent sign must
    start an escape and the escaped bytes must be UTF-8, each
    continuation byte escaped as well. *)
Fixpoint decodable (need : list (N * N)) (ts : list token) : bool :=
  match ts with
  | [] => match need with [] => true | _ :: _ => false end
  | t :: ts' =>
      match need with
      | [] =>
          match t with
          | Lit _ => decodable [] ts'
          | Esc b =>
              match lead_ranges b with
              | Some r => decodable r ts'
              | None => false
              end
          | Bad => false
          end
      | (lo, hi) :: need' =>
          match t with
          | Esc b => between lo hi b && decodable need' ts'
          | _ => false
          end
      end
  end.

Definition uri_decodable (s : string) : bool := decodable [] (tokens s).

(** The decoded [name=value] pairs of some pieces of a query string: an
    empty piece gives no pair, a piece without ['='] has the empty
    value. *)
Definition pairs_of (pieces : list string) : list (string * string) :=
  omap (fun piece =>
          if truthy piece then
            let '(name, value) := cut "="%char piece in
            Some (unescape name, unescape (default EmptyString value))
          else None)
       pieces.

(** [querystring.parse] collects repeated names into arrays. *)
Definition add_pair (q : gmap string qvalue) (p : string * string)
  : gmap string qvalue :=
  match q !! p.1 with
  | None => <[p.1 := QString p.2]> q
  | Some (QString s) => <[p.1 := QArray [s; p.2]]> q
  | Some (QArray l) => <[p.1 := QArray (l ++ [p.2])]> q
  end.

(** [querystring.parse(qs)]: at most 1000 pieces are read, empty ones
    counted. *)
Definition querystring_parse (qs : string) : gmap string qvalue :=
  foldl add_pair ∅ (pairs_of (take 1000 (split_on "&"%char qs))).

Definition is_space (c : ascii) : bool := (code c <? 33)%N.

Fixpoint ltrim (s : string) : string :=
  match s with
  | EmptyString => EmptyString
  | String c s' => if is_space c then ltrim s' else s
  end.

Fixpoint rtrim (s : string) : string :=
  match s with
  | EmptyString => EmptyString
  | String c s' =>
      match rtrim s' with
      | EmptyString => if is_space c then EmptyString else String c EmptyString
      | t => String c t
      end
  end.

(** Backslashes before the first ['?'] or ['#'] count as slashes. *)
Fixpoint fix_backslashes (s : string) : string :=
  match s with
  | EmptyString => EmptyString
  | String c s' =>
      if Ascii.eqb c "?" || Ascii.eqb c "#" then s
      else String (if (code c =? 92)%N then "/"%char else c) (fix_backslashes s')
  end.

Definition is_alpha (c : ascii) : bool :=
  between 65 90 (code c) || between 97 122 (code c).

Definition is_digit (c : ascii) : bool := between 48 57 (code c).

Definition is_scheme_char (c : ascii) : bool :=
  is_alpha c || is_digit c ||
  Ascii.eqb c "+" || Ascii.eqb c "-" || Ascii.eqb c ".".

(** The characters up to the first [':'], when all of them may stand in a
    scheme, and what follows the colon. *)
Fixpoint scheme_prefix (s : string) : option (string * string) :=
  match s with
  | EmptyString => None
  | String c s' =>
      if Ascii.eqb c ":" then Some (EmptyString, s')
      else if is_scheme_char c then
        match scheme_prefix s' with
        | Some (p, r) => Some (String c p, r)
        | None => None
        end
      else None
  end.

(** [protocolPattern] of [url.parse]: a non-empty run of scheme
    characters and a colon; the protocol is lower-cased. *)
Definition legacy_protocol (s : string) : option (string * string) :=
  match scheme_prefix s with
  | Some (String c p, r) => Some (toLowerCase_ascii (String c p), r)
  | _ => None
  end.

Definition starts_with_slashes (s : string) : bool :=
  match s with
  | String a (String b _) => Ascii.eqb a "/" && Ascii.eqb b "/"
  | _ => false
  end.

Definition drop2 (s : string) : string :=
  match s with
  | String _ (String _ r) => r
  | _ => s
  end.

Fixpoint has_char (c : ascii) (s : string) : bool :=
  match s with
  | EmptyString => false
  | String d s' => Ascii.eqb c d || has_char c s'
  end.

(** [hostPattern] of [url.parse]: two slashes, user information without
    slash, an at sign and the start of a host. *)
Definition host_pattern (rest : string) : bool :=
  starts_with_slashes rest &&
  match cut "@"%char (drop2 rest) with
  | (info, Some (String c _)) =>
      truthy info && negb (has_char "/" info) &&
      negb (Ascii.eqb c "@") && negb (Ascii.eqb c "/")
  | _ => false
  end.

(** The part before the first of ['/'], ['?'] and ['#']. *)
Fixpoint authority_of (s : string) : string :=
  match s with
  | EmptyString => EmptyString
  | String c s' =>
      if Ascii.eqb c "/" || Ascii.eqb c "?" || Ascii.eqb c "#"
      then EmptyString
      else String c (authority_of s')
  end.

(** Split at the last occurrence of [c]. *)
Fixpoint cut_last (c : ascii) (s : string) : option (string * string) :=
  match s with
  | EmptyString => None
  | String d s' =>
      match cut_last c s' with
      | Some (before, after) => Some (String d before, after)
      | None => if Ascii.eqb c d then Some (EmptyString, s') else None
      end
  end.

Definition slashed_protocols : list string :=
  ["http"; "https"; "ftp"; "gopher"; "file"; "ws"; "wss"].

Definition member (s : string) (l : list string) : bool :=
  existsb (String.eqb s) l.

(** The user information [url.parse] decodes, when the string has a host
    part with an at sign. *)
Definition legacy_userinfo (s : string) : option string :=
  let proto := fst <$> legacy_protocol s in
  let rest := from_option snd s (legacy_protocol s) in
  let hostless := bool_decide (proto = Some "javascript") in
  let slashes :=
    (bool_decide (is_Some proto) || host_pattern rest) &&
    starts_with_slashes rest in
  let rest1 := if slashes && negb hostless then drop2 rest else rest in
  if negb hostless &&
     (slashes ||
      match proto with
      | Some p => negb (member p slashed_protocols)
      | None => false
      end)
  then fst <$> cut_last "@"%char (authority_of rest1)
  else None.

(** The query of a string: what lies between the first ['?'] and the
    first ['#']. *)
Definition query_part (s : string) : option string :=
  (cut "?"%char (cut "#"%char s).1).2.

(** [url.parse(u, true).query]; [None] is the [URIError] for user
    information that cannot be decoded. *)
Definition legacy_query (u : string) : option (gmap string qvalue) :=
  let s := fix_backslashes (rtrim (ltrim u)) in
  let query :=
    match query_part s with
    | Some qs => querystring_parse qs
    | None => ∅
    end in
  match legacy_userinfo s with
  | Some info => if uri_decodable info then Some query else None
  | None => Some query
  end.

(** Tab, line feed and carriage return are removed by the URL parser. *)
Fixpoint strip_newlines (s : string) : string :=
  match s with
  | EmptyString => EmptyString
  | String c s' =>
      if (code c =? 9)%N || (code c =? 10)%N || (code c =? 13)%N
      then strip_newlines s'
      else String c (strip_newlines s')
  end.

Definition special_schemes : list string := ["http"; "https"; "ws"; "wss"; "ftp"].

Fixpoint skip_slashes (s : string) : string :=
  match s with
  | EmptyString => EmptyString
  | String c s' =>
      if Ascii.eqb c "/" || (code c =? 92)%N then skip_slashes s' else s
  end.

(** The authority of a special URL ends at a slash, a backslash, a
    question mark or a number sign. *)
Fixpoint special_authority (s : string) : string :=
  match s with
  | EmptyString => EmptyString
  | String c s' =>
      if Ascii.eqb c "/" || (code c =? 92)%N ||
         Ascii.eqb c "?" || Ascii.eqb c "#"
      then EmptyString
      else String c (special_authority s')
  end.

Fixpoint all_chars (f : ascii -> bool) (s : string) : bool :=
  match s with
  | EmptyString => true
  | String c s' => f c && all_chars f s'
  end.

Fixpoint decimal_value (acc : N) (s : string) : N :=
  match s with
  | EmptyString => acc
  | String c s' => decimal_value (10 * acc + (code c - 48))%N s'
  end.

Definition port_ok (port : string) : bool :=
  all_chars is_digit port && (decimal_value 0 port <=? 65535)%N.

Definition forbidden_in_host (c : ascii) : bool :=
  let n := code c in
  (n <? 33)%N || (n =? 127)%N ||
  existsb (Ascii.eqb c)
    ["#"; "/"; ":"; "<"; ">"; "?"; "@"; "["; "]"; "^"; "|"; "%"]%char ||
  (n =? 92)%N.

(** Host and port of an authority without user information; a host in
    brackets is taken as it stands. *)
Definition host_port_ok (hostport : string) : bool :=
  match hostport with
  | String "[" _ =>
      match cut "]"%char hostport with
      | (_, Some EmptyString) => true
      | (_, Some (String c port)) => Ascii.eqb c ":" && port_ok port
      | (_, None) => false
      end
  | _ =>
      let '(host, port) := cut ":"%char hostport in
      truthy host &&
      all_chars (fun c => negb (forbidden_in_host c))
        (foldr (fun t acc =>
                  match t with
                  | Lit c => String c acc
                  | Esc b => String (ascii_of_N b) acc
                  | Bad => String "%" acc
                  end) EmptyString (tokens host)) &&
      port_ok (default EmptyString port)
  end.

Definition with_prefix (c : ascii) (part : option string) : string :=
  match part with
  | Some (String d s) => String c (String d s)
  | _ => EmptyString
  end.

(** [new URL(u)] without a base; [None] is the [TypeError] of the
    constructor. *)
Definition whatwg_URL (u : string) : option URL :=
  let s := strip_newlines (rtrim (ltrim u)) in
  match s with
  | String c _ =>
      if is_alpha c then
        match scheme_prefix s with
        | Some (scheme, rest) =>
            let authority := special_authority (skip_slashes rest) in
            let hostport :=
              match cut_last "@"%char authority with
              | Some (_, hp) => hp
              | None => authority
              end in
            if negb (member (toLowerCase_ascii scheme) special_schemes)
               || host_port_ok hostport
            then
              let '(beforeHash, fragment) := cut "#"%char s in
              Some {| u_search := with_prefix "?" (cut "?"%char beforeHash).2;
                      u_hash := with_prefix "#" fragment |}
            else None
        | None => None
        end
      else None
  | EmptyString => None
  end.

Fixpoint first_value (name : string) (ps : list (string * string))
  : option string :=
  match ps with
  | [] => None
  | (n, v) :: ps' => if String.eqb n name then Some v else first_value name ps'
  end.

(** [new URLSearchParams(init).get(name)]: one leading ['?'] is dropped
    and the first pair with the name wins. *)
Definition searchParams_get (init name : string) : option string :=
  let body :=
    match init with
    | String c s' => if Ascii.eqb c "?" then s' else init
    | EmptyString => init
    end in
  first_value name (pairs_of (split_on "&"%char body)).

End Reference.

#[export] Instance reference_library : UrlLibrary := {|
  url_parse_query := Reference.legacy_query;
  new_URL := Reference.whatwg_URL;
  URLSearchParams_get := Reference.searchParams_get
|}.

(* ===================================================================== *)
(** ** Declarative reading of the classification tests *)
(* ===================================================================== *)

(** The keyword set and the parameter names of the written specification. *)
Definition auth_keywords : list string :=
  ["auth"; "oauth"; "signin"; "login"; "sso"; "callback"].

Definition auth_params : list string := ["token"; "code"; "access_token"].

(** The URL string contains at least one keyword of [kws]. *)
Definition has_keyword (kws : list string) (u : string) : Prop :=
  exists k, k ∈ kws /\ contains u k.

(** The query has a parameter named token, code or access_token. *)
Definition has_named_param (q : gmap string qvalue) : Prop :=
  exists p, p ∈ auth_params /\ is_Some (q !! p).

(** The query has such a parameter with a truthy value: a non-empty
    string, or an array (the name is repeated). *)
Definition has_valued_param (q : gmap string qvalue) : Prop :=
  exists p, p ∈ auth_params /\ qtruthy (q !! p) = true.

(** The three interception call sites of the main process. *)
Inductive call_site := RedirectSite | WillNavigateSite | NewWindowSite.

Section Classification.
Context `{UrlLibrary}.

(** The condition of a call site on a URL and its parsed query. *)
Definition site_test (site : call_site) (u : string) (q : gmap string qvalue)
  : bool :=
  match site with
  | RedirectSite => redirect_is_oauth u q
  | WillNavigateSite => navigation_is_oauth u q
  | NewWindowSite => window_open_is_auth u q
  end.

(** The verdict of the condition evaluated at a call site; there is none
    when [url.parse] throws before the condition is reached. *)
Definition classified_at (site : call_site) (u : string) : option bool :=
  site_test site u <$> url_parse_query u.

(** The classifier as the written specification words it: a keyword and
    a parameter named token, code or access_token. *)
Definition spec_auth_related (u : string) : Prop :=
  has_keyword auth_keywords u /\
  exists q, url_parse_query u = Some q /\ has_named_param q.



(** The completed-load check as one boolean: the substring gate passes,
    the URL parses and the test of lines 178-179 succeeds. *)
Definition auth_result_delivered (finalUrl : string) : bool :=
  looks_like_callback finalUrl &&
  match new_URL finalUrl with
  | Some urlObj => token_detected urlObj
  | None => false
  end.

(** The events that move an idle session to [AuthPending]. *)
Definition triggers_auth (ev : renderer_event) : Prop :=
  match ev with
  | WillNavigate target => has_keyword ["oauth"; "auth"; "login"; "sso"] target
  | NewWindow target =>
      has_keyword ["auth"; "login"; "sso"; "oauth"; "callback"] target
  | AuthRedirectMessage _ => True
  | _ => False
  end.

End Classification.

(** The entries carried by the ['log-url-opened'] events of a trace. *)
Definition logged (evs : list main_event) : list HistoryEntry :=
  omap (fun ev => match ev with IpcLogUrlOpened d => Some d | _ => None end) evs.

(** The main-process events caused by the IPC messages a renderer handler
    sent. *)
Definition ipc_to_main (out : list effect) : list main_event :=
  omap (fun e =>
          match e with
          | IpcSend channel d =>
              if String.eqb channel "log-url-opened"
              then Some (IpcLogUrlOpened d) else None
          | _ => None
          end) out.

(** The renderer messages caused by what the main process sent to the
    window. *)
Definition ipc_to_renderer (out : list effect) : list renderer_event :=
  omap (fun e =>
          match e with
          | WebContentsSend channel u =>
              if String.eqb channel "handle-auth-redirect"
              then Some (AuthRedirectMessage u) else None
          | _ => None
          end) out.

(** A webview showing [u] whose [loadURL] is present and does not throw. *)
Definition plain_webview (u : string) : Webview :=
  {| getURL := u; getTitle := ""; wv_canGoBack := false;
     wv_canGoForward := false; has_loadURL := true;
     loadURL_throws := fun _ => false |}.

(** The main process once its window is open. *)
Definition running_main : MainState := createWindow initial_main.

(** The renderer state [st] with the auth flag set to [b]. *)
Definition with_auth (st : RendererState) (b : bool) : RendererState :=
  (setAuthInProgress b st).1.2.

Definition is_launch (e : effect) : bool :=
  match e with LaunchExternalBrowser _ => true | _ => false end.

Definition is_ipc_send (e : effect) : bool :=
  match e with IpcSend _ _ => true | _ => false end.

(* ===================================================================== *)
(** ** Main process: the session's header rewriting (electron.js) *)
(* ===================================================================== *)

Definition csp_header : string := "Content-Security-Policy".
Definition acao_header : string := "Access-Control-Allow-Origin".

Definition permissive_csp : string :=
  "default-src * 'unsafe-inline' 'unsafe-eval'; script-src * 'unsafe-inline' 'unsafe-eval'; connect-src * 'unsafe-inline' ws: wss:; img-src * data: blob: 'unsafe-inline'; frame-src *; style-src * 'unsafe-inline';".

(** [mainSession.webRequest.onHeadersReceived] (lines 121-129): the object
    handed to the callback is the spread of [details.responseHeaders]
    followed by the two fixed properties. Property names are compared as
    they are spelled. *)
Definition onHeadersReceived (responseHeaders : gmap string (list string))
  : gmap string (list string) :=
  <[acao_header := ["*"]]> (<[csp_header := [permissive_csp]]> responseHeaders).

Record BeforeSendResponse := {
  cancel : bool;
  requestHeaders : gmap string string
}.

(** The six request headers fixed by [onBeforeSendHeaders], in source
    order. *)
Definition fixed_request_headers : list (string * string) :=
  [("User-Agent",
    "Mozilla/5.0 (Macintosh; Intel Mac OS X 10_15_7) AppleWebKit/537.36 (KHTML, like Gecko) Chrome/115.0.0.0 Safari/537.36");
   ("Accept",
    "text/html,application/xhtml+xml,application/xml;q=0.9,image/webp,image/apng,*/*;q=0.8,application/signed-exchange;v=b3;q=0.7");
   ("Accept-Language", "en-US,en;q=0.9");
   ("Accept-Encoding", "gzip, deflate, br");
   ("Connection", "keep-alive");
   ("Upgrade-Insecure-Requests", "1")].

(** [mainSession.webRequest.onBeforeSendHeaders] (lines 165-179). *)
Definition onBeforeSendHeaders (headers : gmap string string)
  : BeforeSendResponse :=
  {| cancel := false;
     requestHeaders :=
       foldl (fun m p => <[p.1 := p.2]> m) headers fixed_request_headers |}.

(* ===================================================================== *)
(** ** The other main script: electron-simple.js *)
(* ===================================================================== *)

Module ElectronSimple.

(** The events [electron-simple.js] listens to, and a call of
    [shell.openExternal] by code of that process. *)
Inductive event :=
| WhenReady
| WindowAllClosed (darwin : bool)
| Activate
| WindowClosed
| UncaughtException (message : string)
| LogUrlOpened (data : HistoryEntry)
| OpenExternalRequest (target : string)
| CallShellOpenExternal (target : string).

Definition step (st : MainState) (ev : event) : MainState * list effect :=
  match ev with
  | WhenReady => (createWindow st, [ConsoleLog "App is ready" ""])
  | WindowAllClosed darwin =>
      (st, ConsoleLog "All windows closed" "" :: if darwin then [] else [AppQuit])
  | Activate =>
      (match mainWindow st with WNull => createWindow st | _ => st end,
       [ConsoleLog "App activated" ""])
  | WindowClosed =>
      ({| mainWindow := WNull;
          urlHistory := urlHistory st;
          shell_openExternal := shell_openExternal st |},
       [ConsoleLog "Window closed" ""])
  | UncaughtException message => (st, [ConsoleError "Uncaught exception:"])
  | LogUrlOpened data => on_log_url_opened st data
  | OpenExternalRequest _ =>
      (st, [ShowMessageBox external_disabled_title external_disabled_message])
  | CallShellOpenExternal target => (st, (call_openExternal st target).1)
  end.

Fixpoint run (st : MainState) (evs : list event) : MainState * list effect :=
  match evs with
  | [] => (st, [])
  | ev :: evs' =>
      let '(st1, out1) := step st ev in
      let '(st2, out2) := run st1 evs' in
      (st2, out1 ++ out2)
  end.

(** The event of [electron.js] that answers the same occurrence; an
    uncaught exception has no listener there. *)
Definition to_main (ev : event) : option main_event :=
  match ev with
  | WhenReady => Some AppReady
  | WindowAllClosed darwin => Some (AppWindowAllClosed darwin)
  | Activate => Some AppActivate
  | WindowClosed => Some MainWindowClosed
  | UncaughtException _ => None
  | LogUrlOpened data => Some (IpcLogUrlOpened data)
  | OpenExternalRequest target => Some (IpcOpenExternal target)
  | CallShellOpenExternal target => Some (CallOpenExternal target)
  end.

End ElectronSimple.

(* ===================================================================== *)
(** ** Renderer: the remaining parts of EmbeddedBrowser.js *)
(* ===================================================================== *)

Definition setIsWebviewReady (v : bool) : R unit := fun st =>
  (Normal tt,
   {| currentUrl := currentUrl st; title := title st; isLoading := isLoading st;
      canGoBack := canGoBack st; canGoForward := canGoForward st;
      isWebviewReady := v;
      authInProgress := authInProgress st |}, []).

(** The effect that follows the [url] prop (lines 40-51); an undefined
    prop is the empty string. *)
Definition syncUrlEffect (urlProp : string) (wvref : option Webview) : R unit :=
  cur <- read currentUrl ;;
  if truthy urlProp && negb (String.eqb urlProp cur) then
    setCurrentUrl urlProp ;;
    ready <- read isWebviewReady ;;
    match wvref with
    | Some wv =>
        if ready && has_loadURL wv then
          try_catch
            (loadURL wv urlProp)
            (fun _ => emit (ConsoleError "Error loading URL:"))
        else ret tt
    | None => ret tt
    end
  else ret tt.

(** [handleWebviewReady] (lines 92-129). [hasGetWebContentsId] tells
    whether the element has that method, [configureThrows] whether
    assigning the partition or injecting the script throws. *)
Definition handleWebviewReady (wv : Webview)
    (hasGetWebContentsId configureThrows : bool) : R unit :=
  emit (ConsoleLog "Webview is ready" "") ;;
  cur <- read currentUrl ;;
  setIsWebviewReady true ;;
  (if hasGetWebContentsId then
     try_catch
       (if configureThrows then throw "configure" else emit InjectScript)
       (fun _ => emit (ConsoleError "Error configuring webview:"))
   else ret tt) ;;
  if truthy cur && has_loadURL wv then
    try_catch
      (loadURL wv cur)
      (fun _ => emit (ConsoleError "Error loading initial URL:"))
  else ret tt.

(** [handleUrlChange] (lines 421-423). *)
Definition handleUrlChange (value : string) : R unit := setCurrentUrl value.

(** [handleUrlSubmit] (lines 425-430): no [try] around [loadURL]. *)
Definition handleUrlSubmit (wvref : option Webview) : R unit :=
  emit PreventDefault ;;
  cur <- read currentUrl ;;
  match wvref with
  | Some wv =>
      if has_loadURL wv && truthy cur then loadURL wv cur else ret tt
  | None => ret tt
  end.

(** [handleOpenExternal] (lines 404-413), the button titled "Reload
    current URL": no [try] around [loadURL] either. *)
Definition handleOpenExternal (wvref : option Webview) : R unit :=
  cur <- read currentUrl ;;
  if truthy cur then
    match wvref with
    | Some wv => if has_loadURL wv then loadURL wv cur else ret tt
    | None => ret tt
    end
  else ret tt.

(** What the remaining user-interface handlers ask for. *)
Inductive ui_action :=
| SendDownloadPdf (target : string)    (* ipcRenderer.send('download-pdf') *)
| SendOpenExternal (target : string)   (* ipcRenderer.send('open-external') *)
| CallOnOpenUrl (target : string)      (* the onOpenUrl prop *)
| WindowOpenBlank (target : string).   (* window.open(url, '_blank') *)

(** [handleDownload] (lines 415-419). *)
Definition handleDownload (st : RendererState) : list ui_action :=
  if truthy (currentUrl st) then [SendDownloadPdf (currentUrl st)] else [].

(** The targets of the [loadURL] calls in an output. *)
Definition loads_of (out : list effect) : list string :=
  omap (fun e => match e with WebviewLoadURL t => Some t | _ => None end) out.

Section RendererRuns.
Context `{UrlLibrary}.

(** Running the component's handlers over a sequence of events, each with
    the webview as it is when the event arrives. *)
Fixpoint renderer_run (evs : list (Webview * renderer_event))
    (st : RendererState) : RendererState * list effect :=
  match evs with
  | [] => (st, [])
  | (wv, ev) :: evs' =>
      let '(_, st1, out1) := renderer_handler wv ev st in
      let '(st2, out2) := renderer_run evs' st1 in
      (st2, out1 ++ out2)
  end.

(** Does this event complete a load that delivers an auth result? *)
Definition delivers_result (x : Webview * renderer_event) : bool :=
  match x.2 with
  | DidStopLoading _ _ => auth_result_delivered (getURL x.1)
  | _ => false
  end.

(** One new-window request seen by both processes: the main process's
    handler, the delivery of what it sent to the window, and the
    renderer's own handler. *)
Definition new_window_request (main : MainState) (wv : Webview) (u : string)
    (st : RendererState) : RendererState * list effect :=
  renderer_run
    (map (pair wv)
       (ipc_to_renderer (setWindowOpenHandler main u).2 ++ [NewWindow u]))
    st.

End RendererRuns.

(* ===================================================================== *)
(** ** Renderer: the remaining parts of UrlHistory.js *)
(* ===================================================================== *)

(** [handleOpenUrl] (lines 117-128); [hasOnOpenUrl] tells whether the
    [onOpenUrl] prop was given. *)
Definition handleOpenUrl (hasOnOpenUrl isElectron : bool) (u : string)
  : list ui_action :=
  if hasOnOpenUrl then [CallOnOpenUrl u]
  else if isElectron then [SendOpenExternal u]
  else [WindowOpenBlank u].

(** The main-process events caused by the ['open-external'] messages among
    some actions. *)
Definition ui_to_main (acts : list ui_action) : list main_event :=
  omap (fun a =>
          match a with
          | SendOpenExternal u => Some (IpcOpenExternal u)
          | _ => None
          end) acts.

Section HistoryFilter.
(** [String.prototype.toLowerCase] and [Number.prototype.toString] are the
    engine's. *)
Variable toLowerCase : string -> string.
Variable number_toString : Z -> string.

(** The predicate of the [filter] call (lines 80-83); a batch id of [0] is
    falsy. *)
Definition matches_search (searchTerm : string) (item : HistoryEntry) : bool :=
  includes (toLowerCase (url item)) (toLowerCase searchTerm) ||
  match batchId item with
  | Some n => negb (n =? 0)%Z && includes (number_toString n) searchTerm
  | None => false
  end.

(** The filter stage of [filteredAndSortedHistory]. *)
Definition filtered_history (searchTerm : string) (h : list HistoryEntry)
  : list HistoryEntry :=
  List.filter (matches_search searchTerm) h.

(** The batch cell of a row: [item.batchId || 'N/A'] (line 189). *)
Definition batch_cell (item : HistoryEntry) : string :=
  match batchId item with
  | Some n => if (n =? 0)%Z then "N/A" else number_toString n
  | None => "N/A"
  end.

End HistoryFilter.

(* ===================================================================== *)
(** ** The packaging script: build-electron.js *)
(* ===================================================================== *)

Module Build.

(** The fields of [package.json] the script reads, each holding the JSON
    text of its value, absent when undefined. *)
Record PackageJson := {
  pkg_name : option string;
  pkg_version : option string;
  pkg_description : option string;
  pkg_main : option string;
  pkg_author : option string
}.

Inductive content :=
| Text (body : string)
| Package (p : PackageJson).

(** The part of the file system the script touches, paths relative to
    [__dirname]. *)
Record FileSystem := {
  files : gmap string content;
  dirs : gset string
}.

Inductive build_effect :=
| BuildLog (msg : string)
| BuildError (msg : string)
| StartBuild.

(** [fs.existsSync(p)] *)
Definition existsSync (fs : FileSystem) (p : string) : bool :=
  bool_decide (p ∈ dirs fs) || bool_decide (is_Some (files fs !! p)).

(** [fs.mkdirSync(p, { recursive: true })] *)
Definition mkdirSync (fs : FileSystem) (p : string) : FileSystem :=
  {| files := files fs; dirs := {[p]} ∪ dirs fs |}.

(** Writing [c] at [dst] inside the directory [dir]. *)
Definition put_file (fs : FileSystem) (dir dst : string) (c : content)
  : completion FileSystem :=
  if bool_decide (dir ∈ dirs fs) then
    if bool_decide (dst ∈ dirs fs) then Thrown "EISDIR"
    else Normal {| files := <[dst := c]> (files fs); dirs := dirs fs |}
  else Thrown "ENOTDIR".

(** [fs.copyFileSync(src, dst)]: throws when [src] is a directory or
    does not exist. *)
Definition copyFileSync (fs : FileSystem) (src dir dst : string)
  : completion FileSystem :=
  match files fs !! src with
  | Some c => put_file fs dir dst c
  | None =>
      if bool_decide (src ∈ dirs fs) then Thrown "EISDIR" else Thrown "ENOENT"
  end.

(** [require('./package.json')] *)
Definition require_package (fs : FileSystem) : completion PackageJson :=
  match files fs !! "package.json" with
  | Some (Package p) => Normal p
  | Some (Text _) => Thrown "SyntaxError"
  | None => Thrown "MODULE_NOT_FOUND"
  end.

(** [appPackageJson] (lines 24-30). *)
Definition appPackageJson (p : PackageJson) : PackageJson :=
  {| pkg_name := pkg_name p;
     pkg_version := pkg_version p;
     pkg_description := pkg_description p;
     pkg_main := Some "electron.js";
     pkg_author := pkg_author p |}.

(** The statements of the script, from the first to the last. *)
Definition build_statements (buildOk : bool) (fs : FileSystem)
  : completion unit * FileSystem * list build_effect :=
  let fs1 := if existsSync fs "app" then fs else mkdirSync fs "app" in
  match copyFileSync fs1 "electron.js" "app" "app/electron.js" with
  | Thrown e => (Thrown e, fs1, [])
  | Normal fs2 =>
      match copyFileSync fs2 "preload.js" "app" "app/preload.js" with
      | Thrown e => (Thrown e, fs2, [])
      | Normal fs3 =>
          match require_package fs3 with
          | Thrown e => (Thrown e, fs3, [])
          | Normal p =>
              match put_file fs3 "app" "app/package.json"
                      (Package (appPackageJson p)) with
              | Thrown e => (Thrown e, fs3, [])
              | Normal fs4 =>
                  (Normal tt, fs4,
                   [BuildLog "Starting build process..."; StartBuild;
                    if buildOk
                    then BuildLog "Build completed successfully"
                    else BuildError "Error during build:"])
              end
          end
      end
  end.

(** Running the script with node, [electron-builder] being installed;
    [buildOk] tells whether the promise of [builder.build] is fulfilled.
    Node reads the [package.json] beside the script before it runs the
    first statement and gives up when that file is malformed. A thrown
    exception ends the script with the file system as it is at that
    point. *)
Definition build_script (buildOk : bool) (fs : FileSystem)
  : completion unit * FileSystem * list build_effect :=
  match files fs !! "package.json" with
  | Some (Text _) => (Thrown "ERR_INVALID_PACKAGE_CONFIG", fs, [])
  | _ => build_statements buildOk fs
  end.

End Build.

(* ===================================================================== *)
(** ** Facts about JavaScript strings *)
(* ===================================================================== *)

Module JsStringFacts.

Lemma append_nil_l s : "" +:+ s = s.
Proof. reflexivity. Qed.

Lemma append_cons c s t : String c s +:+ t = String c (s +:+ t).
Proof. reflexivity. Qed.

Ltac norm_append := rewrite ?append_cons, ?append_nil_l in *.

Lemma append_assoc s t u : (s +:+ t) +:+ u = s +:+ (t +:+ u).
Proof. induction s as [|c s IH]; norm_append; [done | by rewrite IH]. Qed.

Lemma startsWith_spec s k :
  startsWith s k = true <-> exists post, s = k +:+ post.
Proof.
  revert s; induction k as [|c k IH]; intros s; simpl.
  - split; [intros _; exists s; reflexivity | intros _; reflexivity].
  - destruct s as [|d s]; simpl.
    + split; [discriminate | intros [post Hp]; discriminate].
    + destruct (Ascii.eqb_spec c d) as [->|Hne].
      * rewrite IH. split; intros [post Hp]; exists post;
          norm_append; congruence.
      * split; [discriminate | intros [post Hp]; norm_append; congruence].
Qed.

Lemma includes_spec s k : includes s k = true <-> contains s k.
Proof.
  unfold contains. induction s as [|d s IH].
  - simpl. rewrite orb_false_r, startsWith_spec. split.
    + intros [post Hp]. by exists "", post.
    + intros [[|a pre] [post Hp]]; norm_append;
        [by exists post | discriminate].
  - cbn [includes]. rewrite orb_true_iff, IH, startsWith_spec. split.
    + intros [[post Hp]|(pre & post & Hp)].
      * by exists "", post.
      * exists (String d pre), post. norm_append. by rewrite Hp.
    + intros [[|a pre] [post Hp]]; norm_append.
      * left. by exists post.
      * right. exists pre, post. congruence.
Qed.

Lemma includes_false s k : includes s k = false <-> ~ contains s k.
Proof. rewrite <- includes_spec. by destruct (includes s k). Qed.

Lemma contains_trans s k j : contains s k -> contains k j -> contains s j.
Proof.
  intros (p1 & q1 & ->) (p2 & q2 & ->).
  exists (p1 +:+ p2), (q2 +:+ q1).
  by rewrite !append_assoc.
Qed.

(** Any string that includes [k] also includes every substring of [k]:
    this is why the ['oauth'] test never decides a condition that also
    tests ['auth']. *)
Lemma includes_mono s k j :
  includes k j = true -> includes s k = true -> includes s j = true.
Proof.
  rewrite !includes_spec. intros H1 H2. by eapply contains_trans.
Qed.

End JsStringFacts.

Import JsStringFacts.

(* ===================================================================== *)
(** ** The classification tests, declaratively *)
(* ===================================================================== *)

Section ClassificationFacts.
Context `{UrlLibrary}.

Lemma has_keyword_nil u : has_keyword [] u <-> False.
Proof. split; [intros (k & Hk & _); by apply elem_of_nil in Hk | done]. Qed.

Lemma has_keyword_cons k kws u :
  has_keyword (k :: kws) u <-> includes u k = true \/ has_keyword kws u.
Proof.
  rewrite includes_spec. unfold has_keyword. split.
  - intros (k' & [->|Hin]%elem_of_cons & Hc); [by left | right; eauto].
  - intros [Hc|(k' & Hin & Hc)].
    + exists k. split; [apply elem_of_cons; by left | done].
    + exists k'. split; [apply elem_of_cons; by right | done].
Qed.

(** Unfolds a keyword list into the chain of [includes] tests. *)
Ltac keyword_chain :=
  rewrite ?has_keyword_cons, ?has_keyword_nil, ?orb_true_iff.

Lemma redirect_keywords u :
  includes u "auth" || includes u "oauth" || includes u "signin" ||
  includes u "login" || includes u "sso" || includes u "callback" = true
  <-> has_keyword auth_keywords u.
Proof. unfold auth_keywords. keyword_chain. tauto. Qed.

Lemma window_open_keywords u :
  includes u "auth" || includes u "login" || includes u "sso" ||
  includes u "oauth" || includes u "signin" || includes u "callback" = true
  <-> has_keyword auth_keywords u.
Proof. unfold auth_keywords. keyword_chain. tauto. Qed.

Lemma query_has_token_spec (q : gmap string qvalue) :
  query_has_token q = true <-> has_valued_param q.
Proof.
  unfold query_has_token, has_valued_param, auth_params.
  rewrite !orb_true_iff. split.
  - intros [[Ht|Hc]|Ha].
    + exists "token". split; [set_solver | done].
    + exists "code". split; [set_solver | done].
    + exists "access_token". split; [set_solver | done].
  - intros (p & Hp & Hv).
    rewrite !elem_of_cons, elem_of_nil in Hp.
    destruct Hp as [->|[->|[->|[]]]]; tauto.
Qed.

Lemma valued_param_named q : has_valued_param q -> has_named_param q.
Proof.
  intros (p & Hp & Hv). exists p. split; [done|].
  destruct (q !! p); [by eexists | discriminate].
Qed.

Lemma new_window_keywords u :
  new_window_is_auth u = true
  <-> has_keyword ["auth"; "login"; "sso"; "oauth"; "callback"] u.
Proof. unfold new_window_is_auth. keyword_chain. tauto. Qed.

(** The renderer's new-window test is implied by the main process's. *)
Lemma new_window_within_window_open u q :
  new_window_is_auth u = true -> window_open_is_auth u q = true.
Proof.
  unfold new_window_is_auth, window_open_is_auth.
  rewrite !orb_true_iff. tauto.
Qed.

(** What the redirect handler does with its verdict: the URL is sent to
    the view exactly when [url.parse] returned, the URL is classified and
    the window is still there. *)
Lemma redirect_forwarded_iff st u :
  WebContentsSend "handle-auth-redirect" u ∈ (onBeforeRedirect st u).2
  <-> mainWindow_alive st = true /\
      exists q, url_parse_query u = Some q /\ redirect_is_oauth u q = true.
Proof.
  unfold onBeforeRedirect. destruct (url_parse_query u) as [q|]; cbn [snd].
  - destruct (redirect_is_oauth u q) eqn:Hc, (mainWindow_alive st);
      rewrite ?elem_of_cons, ?elem_of_nil; split.
    + intros _. split; [done|]. by exists q.
    + intros _. right. right. by left.
    + intros Hin. repeat (destruct Hin as [Hin|Hin]; [discriminate|]). done.
    + intros [Ha _]. discriminate.
    + intros Hin. repeat (destruct Hin as [Hin|Hin]; [discriminate|]). done.
    + intros [_ (q' & [= <-] & Hq)]. congruence.
    + intros Hin. repeat (destruct Hin as [Hin|Hin]; [discriminate|]). done.
    + intros [Ha _]. discriminate.
  - rewrite elem_of_cons, elem_of_nil. split.
    + intros [Hin|[]]. discriminate.
    + intros [_ (q & Hq & _)]. discriminate.
Qed.

(** ['oauth'] contains ['auth'], so the keyword [oauth] adds nothing to a
    test that also looks for [auth]. *)
Lemma oauth_is_auth u : includes u "oauth" = true -> includes u "auth" = true.
Proof. apply includes_mono. reflexivity. Qed.

End ClassificationFacts.

(* ===================================================================== *)
(** ** C1: classification at the three call sites *)
(* ===================================================================== *)

(** C1, as amended. For a URL that [url.parse] accepts: at the redirect and
    will-navigate call sites of the main process the URL is classified as
    auth-related if and only if the URL string contains a keyword of
    {auth, oauth, signin, login, sso, callback} and the parsed query holds
    a truthy value under token, code or access_token; at the new-window
    call site it is classified as auth-related if and only if it contains
    a keyword or holds such a parameter. *)
Theorem classification_per_site `{UrlLibrary}
    (u : string) (q : gmap string qvalue) :
  url_parse_query u = Some q ->
  (classified_at RedirectSite u = Some true <->
     has_keyword auth_keywords u /\ has_valued_param q) /\
  (classified_at WillNavigateSite u = Some true <->
     has_keyword auth_keywords u /\ has_valued_param q) /\
  (classified_at NewWindowSite u = Some true <->
     has_keyword auth_keywords u \/ has_valued_param q).
Proof.
  intros Hq. unfold classified_at. rewrite Hq. cbn [fmap option_fmap option_map site_test].
  unfold redirect_is_oauth, navigation_is_oauth, window_open_is_auth.
  assert (Hsome : forall b : bool, Some b = Some true <-> b = true).
  { intros b. split; [by intros [= ->] | by intros ->]. }
  rewrite !Hsome.
  rewrite !andb_true_iff, (orb_true_iff _ (query_has_token q)).
  rewrite redirect_keywords, window_open_keywords, query_has_token_spec.
  tauto.
Qed.

Lemma classification_per_site_witness :
  let u := "https://example.com/callback?code=abc" in
  url_parse_query u = Some {[ "code" := QString "abc" ]} /\
  classified_at RedirectSite u = Some true /\
  classified_at NewWindowSite u = Some true.
Proof.
  cbv zeta.
  assert (Hq : url_parse_query "https://example.com/callback?code=abc"
               = Some {[ "code" := QString "abc" ]}) by (by vm_compute).
  split; [exact Hq|].
  destruct (classification_per_site (H := reference_library)
              "https://example.com/callback?code=abc"
              {[ "code" := QString "abc" ]} Hq) as (Hred & _ & Hnew).
  assert (Hkw : has_keyword auth_keywords "https://example.com/callback?code=abc").
  { exists "callback". split; [by repeat constructor|].
    apply includes_spec. by vm_compute. }
  assert (Hpar : has_valued_param ({[ "code" := QString "abc" ]} : gmap string qvalue)).
  { exists "code". split; [by repeat constructor|]. by vm_compute. }
  split; [by apply Hred | apply Hnew; by left].
Defined.

(** C1 fails as stated. The new-window handler classifies a URL that
    contains [callback] and has no query at all as auth-related and forwards
    it; the redirect handler does not classify a URL with a keyword and a
    parameter named [code] whose value is empty. *)
Lemma new_window_keyword_alone_is_auth :
  (let u := "https://example.com/callback" in
   url_parse_query u = Some ∅ /\
   ~ spec_auth_related u /\
   classified_at NewWindowSite u = Some true /\
   setWindowOpenHandler (createWindow initial_main) u =
     (Normal ActionDeny,
      [ConsoleLog "Attempted to open new window:" u;
       WebContentsSend "handle-auth-redirect" u])) /\
  (let u := "https://example.com/callback?code=" in
   url_parse_query u = Some {[ "code" := QString "" ]} /\
   spec_auth_related u /\
   classified_at RedirectSite u = Some false).
Proof.
  split; cbv zeta.
  - split; [by vm_compute|]. split; [|split; by vm_compute].
    intros [_ (q & Hq & p & _ & Hp)].
    assert (Hempty : url_parse_query "https://example.com/callback"
                     = Some (∅ : gmap string qvalue)) by (by vm_compute).
    rewrite Hempty in Hq. injection Hq as <-.
    rewrite lookup_empty in Hp. by destruct Hp.
  - assert (Hq : url_parse_query "https://example.com/callback?code="
                 = Some ({[ "code" := QString "" ]} : gmap string qvalue))
      by (by vm_compute).
    split; [exact Hq|]. split; [|by vm_compute]. split.
    + exists "callback". split; [set_solver|].
      apply includes_spec. by vm_compute.
    + eexists. split; [exact Hq|].
      exists "code". split; [set_solver|].
      rewrite lookup_singleton_eq. by eexists.
Qed.

(* ===================================================================== *)
(** ** The renderer handlers, one by one *)
(* ===================================================================== *)

Section RendererFacts.
Context `{UrlLibrary}.

Lemma will_navigate_flag target st :
  authInProgress (state_after (handleWillNavigate target) st) =
  authInProgress st ||
  (includes target "oauth" || includes target "auth" ||
   includes target "login" || includes target "sso").
Proof.
  unfold state_after, handleWillNavigate, bind. simpl.
  destruct (includes target "oauth" || includes target "auth" ||
            includes target "login" || includes target "sso"); simpl.
  - by rewrite orb_true_r.
  - by rewrite orb_false_r.
Qed.

Lemma new_window_flag wv target st :
  authInProgress (state_after (handleNewWindow wv target) st) =
  authInProgress st || new_window_is_auth target.
Proof.
  unfold state_after, handleNewWindow, bind, try_catch, loadURL. simpl.
  destruct (new_window_is_auth target); simpl.
  - rewrite orb_true_r.
    destruct (has_loadURL wv); [|done].
    by destruct (loadURL_throws wv target).
  - by rewrite orb_false_r.
Qed.

Lemma new_window_ignored wv target st :
  new_window_is_auth target = false ->
  handleNewWindow wv target st =
  (Normal tt, st,
   [PreventDefault; ConsoleLog "New window requested for URL:" target]).
Proof.
  intros Hno. unfold handleNewWindow, bind. simpl. rewrite Hno. simpl.
  by destruct st.
Qed.

Lemma new_window_forwarded wv target st :
  new_window_is_auth target = true ->
  has_loadURL wv = true ->
  loadURL_throws wv target = false ->
  handleNewWindow wv target st =
  (Normal tt,
   {| currentUrl := target; title := title st; isLoading := isLoading st;
      canGoBack := canGoBack st; canGoForward := canGoForward st;
      isWebviewReady := isWebviewReady st; authInProgress := true |},
   [PreventDefault;
    ConsoleLog "New window requested for URL:" target;
    ConsoleLog "Auth URL detected in new window request" "";
    WebviewLoadURL target]).
Proof.
  intros Hkw Hload Hok.
  unfold handleNewWindow, bind, try_catch, loadURL. simpl.
  rewrite Hkw. simpl. rewrite Hload, Hok. done.
Qed.

Lemma auth_redirect_flag wvref u st :
  authInProgress (state_after (handleAuthRedirect wvref u) st) = true.
Proof.
  unfold state_after, handleAuthRedirect, bind, try_catch, loadURL. simpl.
  destruct wvref as [wv|]; [|done].
  destruct (isWebviewReady st && has_loadURL wv); [|done].
  by destruct (loadURL_throws wv u).
Qed.

Lemma load_failed_flag code desc validated st :
  authInProgress (state_after (handleLoadFailed code desc validated) st) =
  authInProgress st.
Proof.
  unfold state_after, handleLoadFailed, bind. simpl.
  destruct (authInProgress st) eqn:Hp; simpl; [done|].
  by destruct (negb (code =? ERR_ABORTED)%Z).
Qed.

Lemma finish_load_flag wv hasOnNavigate st :
  authInProgress (state_after (handleDidFinishLoad wv hasOnNavigate) st) =
  authInProgress st.
Proof.
  unfold state_after, handleDidFinishLoad, bind. simpl.
  by destruct hasOnNavigate.
Qed.

(** The whole of [handleDidStopLoading] in closed form. *)
Lemma stop_loading_unfold wv batch now st :
  handleDidStopLoading wv batch now st =
  (Normal tt,
   {| currentUrl := currentUrl st; title := title st; isLoading := false;
      canGoBack := canGoBack st; canGoForward := canGoForward st;
      isWebviewReady := isWebviewReady st;
      authInProgress :=
        authInProgress st && negb (auth_result_delivered (getURL wv)) |},
   (if authInProgress st && looks_like_callback (getURL wv) then
      ConsoleLog "Potential OAuth callback URL:" (getURL wv) ::
      match new_URL (getURL wv) with
      | Some urlObj =>
          if token_detected urlObj
          then [ConsoleLog "Auth token detected in URL" ""] else []
      | None => [ConsoleError "Error parsing auth URL:"]
      end
    else []) ++
   [IpcSend "log-url-opened"
      {| url := getURL wv; timestamp := now; batchId := batch |}]).
Proof.
  unfold handleDidStopLoading, auth_result_delivered, bind, try_catch,
    construct_URL. simpl.
  destruct (authInProgress st) eqn:Hp; simpl.
  - destruct (looks_like_callback (getURL wv)); simpl; [|done].
    destruct (new_URL (getURL wv)) as [urlObj|]; simpl; [|done].
    by destruct (token_detected urlObj).
  - done.
Qed.

Lemma stop_loading_flag wv batch now st :
  authInProgress (state_after (handleDidStopLoading wv batch now) st) =
  authInProgress st && negb (auth_result_delivered (getURL wv)).
Proof. unfold state_after. by rewrite stop_loading_unfold. Qed.



(** Every handler completes normally: the two [try] blocks catch what
    [loadURL] and the [URL] constructor throw. *)
Lemma handlers_complete wv ev st :
  result_of (renderer_handler wv ev) st = Normal tt.
Proof.
  unfold result_of. destruct ev as [| batch now | nav | t | t | c d v | u];
    cbn [renderer_handler].
  - done.
  - by rewrite stop_loading_unfold.
  - unfold handleDidFinishLoad, bind. simpl. by destruct nav.
  - unfold handleWillNavigate, bind. simpl.
    by destruct (includes t "oauth" || includes t "auth" ||
                 includes t "login" || includes t "sso").
  - unfold handleNewWindow, bind, try_catch, loadURL. simpl.
    destruct (new_window_is_auth t); simpl; [|done].
    destruct (has_loadURL wv); [|done].
    by destruct (loadURL_throws wv t).
  - unfold handleLoadFailed, bind. simpl.
    destruct (authInProgress st); simpl; [done|].
    by destruct (negb (c =? ERR_ABORTED)%Z).
  - unfold handleAuthRedirect, bind, try_catch, loadURL. simpl.
    destruct (isWebviewReady st && has_loadURL wv); [|done].
    by destruct (loadURL_throws wv u).
Qed.

End RendererFacts.

Ltac keyword_chain :=
  rewrite ?has_keyword_cons, ?has_keyword_nil, ?orb_true_iff.

Lemma pending_iff st : session_state st = AuthPending <-> authInProgress st = true.
Proof. unfold session_state. by destruct (authInProgress st). Qed.

Lemma idle_iff st : session_state st = Idle <-> authInProgress st = false.
Proof. unfold session_state. by destruct (authInProgress st). Qed.

(* ===================================================================== *)
(** ** C2: new-window requests *)
(* ===================================================================== *)

(** C2, as amended. For a new-window request whose URL [url.parse]
    accepts, handled while the main window exists and is not destroyed,
    [setWindowOpenHandler] denies the window. If the URL contains a keyword
    or holds a recognised parameter (the handler's own test), the handler
    sends the current view a ['handle-auth-redirect'] message for that URL
    and shows no dialog. Otherwise it shows the "External Browser Disabled"
    dialog and sends nothing to the view, and the renderer's own
    new-window handler leaves its state, the auth flag included, as it
    was. *)
Theorem new_window_policy `{UrlLibrary}
    (st : MainState) (wv : Webview) (rst : RendererState)
    (u : string) (q : gmap string qvalue) :
  url_parse_query u = Some q ->
  mainWindow_alive st = true ->
  (window_open_is_auth u q = true ->
     setWindowOpenHandler st u =
       (Normal ActionDeny,
        [ConsoleLog "Attempted to open new window:" u;
         WebContentsSend "handle-auth-redirect" u])) /\
  (window_open_is_auth u q = false ->
     setWindowOpenHandler st u =
       (Normal ActionDeny,
        [ConsoleLog "Attempted to open new window:" u;
         ShowMessageBox external_disabled_title external_disabled_message]) /\
     ipc_to_renderer (setWindowOpenHandler st u).2 = [] /\
     handleNewWindow wv u rst =
       (Normal tt, rst,
        [PreventDefault; ConsoleLog "New window requested for URL:" u]) /\
     session_state (state_after (handleNewWindow wv u) rst) = session_state rst).
Proof.
  intros Hq Halive. unfold setWindowOpenHandler. rewrite Hq, Halive. split.
  - intros ->. done.
  - intros Hno. rewrite Hno.
    assert (Hr : new_window_is_auth u = false).
    { destruct (new_window_is_auth u) eqn:Hn; [|done].
      apply (new_window_within_window_open u q) in Hn. congruence. }
    split; [done|]. split; [done|].
    unfold state_after. rewrite (new_window_ignored wv u rst Hr). done.
Qed.

Lemma new_window_policy_witness :
  url_parse_query "https://example.com/page" = Some ∅ /\
  mainWindow_alive running_main = true /\
  setWindowOpenHandler running_main "https://example.com/page" =
    (Normal ActionDeny,
     [ConsoleLog "Attempted to open new window:" "https://example.com/page";
      ShowMessageBox external_disabled_title external_disabled_message]) /\
  session_state
    (state_after
       (handleNewWindow (plain_webview "") "https://example.com/page")
       (initial_renderer "")) = Idle.
Proof.
  assert (Hq : url_parse_query "https://example.com/page"
               = Some (∅ : gmap string qvalue)) by (by vm_compute).
  split; [exact Hq|]. split; [reflexivity|].
  destruct (new_window_policy (H := reference_library) running_main
              (plain_webview "") (initial_renderer "")
              "https://example.com/page" ∅ Hq eq_refl)
    as [_ Hdeny].
  destruct (Hdeny eq_refl) as (Hmain & _ & _ & Hstate).
  split; [exact Hmain | exact Hstate].
Defined.

(** C2 fails as stated when "auth-related" is the keyword-and-parameter
    classification: a new-window request for a URL with a keyword and no
    parameter is not answered by the blocking notice; it is forwarded to the
    view, whose session becomes [AuthPending] on receiving the message. *)
Lemma keyword_only_new_window_is_forwarded :
  let u := "https://example.com/callback" in
  ~ spec_auth_related u /\
  classified_at RedirectSite u = Some false /\
  (setWindowOpenHandler running_main u).2 =
    [ConsoleLog "Attempted to open new window:" u;
     WebContentsSend "handle-auth-redirect" u] /\
  ipc_to_renderer (setWindowOpenHandler running_main u).2 =
    [AuthRedirectMessage u] /\
  session_state
    (state_after (renderer_handler (plain_webview "") (AuthRedirectMessage u))
       (initial_renderer "")) = AuthPending.
Proof.
  cbv zeta. split; [|repeat split; by vm_compute].
  intros [_ (q & Hq & p & _ & Hp)].
  assert (Hempty : url_parse_query "https://example.com/callback"
                   = Some (∅ : gmap string qvalue)) by (by vm_compute).
  rewrite Hempty in Hq. injection Hq as <-.
  rewrite lookup_empty in Hp. by destruct Hp.
Qed.

(* ===================================================================== *)
(** ** C3: Idle to AuthPending *)
(* ===================================================================== *)

(** C3, as amended. An idle session becomes [AuthPending] on exactly these
    events: a will-navigate whose URL contains oauth, auth, login or sso; a
    new-window request whose URL contains auth, login, sso, oauth or
    callback; a ['handle-auth-redirect'] message from the main process. No
    query parameter is consulted. On such a new-window request the view is
    told to load the URL, provided its [loadURL] exists and does not
    throw. *)
Theorem idle_to_pending `{UrlLibrary}
    (wv : Webview) (ev : renderer_event) (st : RendererState) :
  authInProgress st = false ->
  (session_state (state_after (renderer_handler wv ev) st) = AuthPending
     <-> triggers_auth ev) /\
  (forall target,
     ev = NewWindow target -> triggers_auth ev ->
     has_loadURL wv = true -> loadURL_throws wv target = false ->
     output_of (renderer_handler wv ev) st =
       [PreventDefault;
        ConsoleLog "New window requested for URL:" target;
        ConsoleLog "Auth URL detected in new window request" "";
        WebviewLoadURL target]).
Proof.
  intros Hidle. split.
  - rewrite pending_iff.
    destruct ev as [| batch now | nav | t | t | c d v | u];
      cbn [renderer_handler triggers_auth].
    + unfold state_after, handleDidStartLoading. simpl.
      rewrite Hidle. split; [discriminate | done].
    + rewrite stop_loading_flag, Hidle. split; [discriminate | done].
    + rewrite finish_load_flag, Hidle. split; [discriminate | done].
    + rewrite will_navigate_flag, Hidle. simpl. keyword_chain. tauto.
    + rewrite new_window_flag, Hidle. simpl. apply new_window_keywords.
    + rewrite load_failed_flag, Hidle. split; [discriminate | done].
    + rewrite auth_redirect_flag. done.
  - intros target -> Hkw Hload Hok. cbn [renderer_handler triggers_auth] in *.
    apply new_window_keywords in Hkw. unfold output_of.
    by rewrite (new_window_forwarded wv target st Hkw Hload Hok).
Qed.

Lemma idle_to_pending_witness :
  let u := "https://example.com/login?token=xyz" in
  authInProgress (initial_renderer "") = false /\
  session_state
    (state_after (renderer_handler (plain_webview "") (NewWindow u))
       (initial_renderer "")) = AuthPending /\
  output_of (renderer_handler (plain_webview "") (NewWindow u))
    (initial_renderer "") =
    [PreventDefault;
     ConsoleLog "New window requested for URL:" u;
     ConsoleLog "Auth URL detected in new window request" "";
     WebviewLoadURL u].
Proof.
  cbv zeta. split; [reflexivity|].
  assert (Hkw : triggers_auth (NewWindow "https://example.com/login?token=xyz")).
  { exists "login". split; [set_solver|]. apply includes_spec. by vm_compute. }
  destruct (idle_to_pending (plain_webview "")
              (NewWindow "https://example.com/login?token=xyz")
              (initial_renderer "") eq_refl) as [Hiff Hout].
  split; [by apply Hiff | by apply (Hout _ eq_refl Hkw)].
Defined.

(** C3 fails as stated in both directions. A will-navigate to a URL with
    the keyword [login] and no parameter moves an idle session to
    [AuthPending]; a will-navigate to [callback?code=abc], which carries a
    keyword and a recognised parameter, leaves it idle. *)
Lemma will_navigate_ignores_parameters :
  (let u := "https://example.com/login" in
   classified_at WillNavigateSite u = Some false /\
   session_state
     (state_after (renderer_handler (plain_webview "") (WillNavigate u))
        (initial_renderer "")) = AuthPending) /\
  (let u := "https://example.com/callback?code=abc" in
   classified_at WillNavigateSite u = Some true /\
   session_state
     (state_after (renderer_handler (plain_webview "") (WillNavigate u))
        (initial_renderer "")) = Idle).
Proof. repeat split; by vm_compute. Qed.

(* ===================================================================== *)
(** ** C4: AuthPending back to Idle *)
(* ===================================================================== *)





(* ===================================================================== *)
(** ** C5: load failures *)
(* ===================================================================== *)

(** C5. On a load failure in [AuthPending] nothing is surfaced and the
    state is unchanged. In [Idle] the failure description becomes the
    title shown to the user, except for [ERR_ABORTED] (-3), for which the
    state is unchanged as well. *)
Theorem load_failure_policy
    (code : Z) (desc validated : string) (st : RendererState) :
  (session_state st = AuthPending ->
     handleLoadFailed code desc validated st =
       (Normal tt, st,
        [ConsoleLog "Webview load failed:" desc;
         ConsoleLog "Auth in progress, ignoring load error" ""])) /\
  (session_state st = Idle -> code <> ERR_ABORTED ->
     handleLoadFailed code desc validated st =
       (Normal tt,
        {| currentUrl := currentUrl st;
           title := "Error loading page: " +:+ desc;
           isLoading := isLoading st;
           canGoBack := canGoBack st; canGoForward := canGoForward st;
           isWebviewReady := isWebviewReady st;
           authInProgress := false |},
        [ConsoleLog "Webview load failed:" desc])) /\
  (code = ERR_ABORTED ->
     state_after (handleLoadFailed code desc validated) st = st /\
     forall e, e ∈ output_of (handleLoadFailed code desc validated) st ->
               exists msg arg, e = ConsoleLog msg arg).
Proof.
  unfold state_after, output_of, handleLoadFailed, bind. simpl.
  split; [|split].
  - intros Hp%pending_iff. rewrite Hp. simpl. by destruct st.
  - intros Hi%idle_iff Hcode. rewrite Hi. simpl.
    destruct (Z.eqb_spec code ERR_ABORTED) as [->|_]; [done|].
    simpl. by rewrite Hi.
  - intros ->. destruct (authInProgress st) eqn:Hp; simpl.
    + split; [by destruct st|].
      intros e. rewrite !elem_of_cons, elem_of_nil.
      intros [->|[->|[]]]; eauto.
    + split; [by destruct st|].
      intros e. rewrite !elem_of_cons, elem_of_nil.
      intros [->|[]]; eauto.
Qed.

Lemma load_failure_policy_witness :
  (let st := with_auth (initial_renderer "") true in
   session_state st = AuthPending /\
   state_after (handleLoadFailed (-3) "ERR_ABORTED" "https://example.com/") st = st) /\
  (let st := initial_renderer "" in
   session_state st = Idle /\
   title (state_after
            (handleLoadFailed (-105) "ERR_NAME_NOT_RESOLVED" "https://example.com/") st)
   = "Error loading page: ERR_NAME_NOT_RESOLVED").
Proof.
  cbv zeta. split; (split; [reflexivity|]).
  - destruct (load_failure_policy (-3) "ERR_ABORTED" "https://example.com/"
                (with_auth (initial_renderer "") true)) as (Hp & _ & _).
    unfold state_after. by rewrite (Hp eq_refl).
  - destruct (load_failure_policy (-105) "ERR_NAME_NOT_RESOLVED"
                "https://example.com/" (initial_renderer "")) as (_ & Hi & _).
    unfold state_after. rewrite (Hi eq_refl); [reflexivity | discriminate].
Defined.

(* ===================================================================== *)
(** ** C6: the history list *)
(* ===================================================================== *)

Section HistoryFacts.
Context `{UrlLibrary}.

Lemma main_step_history st ev :
  urlHistory (main_step st ev).1 = urlHistory st ++ logged [ev].
Proof.
  destruct ev; simpl; rewrite ?app_nil_r; try done.
  by destruct (mainWindow st).
Qed.

Lemma logged_cons ev evs : logged (ev :: evs) = logged [ev] ++ logged evs.
Proof. unfold logged. simpl. by destruct ev. Qed.

Lemma main_run_cons st ev evs :
  main_run st (ev :: evs) =
  ((main_run (main_step st ev).1 evs).1,
   (main_step st ev).2 ++ (main_run (main_step st ev).1 evs).2).
Proof.
  simpl. destruct (main_step st ev) as [st1 out1]. simpl.
  by destruct (main_run st1 evs).
Qed.

(** The history after any run is the history before it followed by the
    logged entries, in the order of the events. *)
Lemma main_run_history evs : forall st,
  urlHistory (main_run st evs).1 = urlHistory st ++ logged evs.
Proof.
  induction evs as [|ev evs IH]; intros st.
  - simpl. by rewrite app_nil_r.
  - rewrite main_run_cons. cbn [fst].
    rewrite IH, main_step_history, (logged_cons ev evs).
    by rewrite <- app_assoc.
Qed.

End HistoryFacts.

(** C6. Every did-stop-loading event, whatever the state of the session
    and whatever the URL, sends exactly one ['log-url-opened'] message,
    carrying the final URL, the timestamp just taken and the batch id; the
    load-failure handler sends none, so a failed navigation is logged once
    as well. The main process appends each message to [urlHistory]: after
    any run of events the list is the old list followed by the logged
    entries in arrival order, repeated entries included. *)
Theorem history_appended `{UrlLibrary}
    (wv : Webview) (batch : option Z) (now : string) (rst : RendererState)
    (code : Z) (desc validated : string)
    (st : MainState) (evs : list main_event) :
  let entry := {| url := getURL wv; timestamp := now; batchId := batch |} in
  List.filter is_ipc_send (output_of (handleDidStopLoading wv batch now) rst)
    = [IpcSend "log-url-opened" entry] /\
  ipc_to_main (output_of (handleLoadFailed code desc validated) rst) = [] /\
  urlHistory
    (main_run st (ipc_to_main (output_of (handleDidStopLoading wv batch now) rst))).1
    = urlHistory st ++ [entry] /\
  urlHistory (main_run st evs).1 = urlHistory st ++ logged evs.
Proof.
  cbv zeta.
  assert (Hout : ipc_to_main (output_of (handleDidStopLoading wv batch now) rst)
                 = [IpcLogUrlOpened
                      {| url := getURL wv; timestamp := now; batchId := batch |}]).
  { unfold output_of. rewrite stop_loading_unfold. cbn [snd].
    destruct (authInProgress rst && looks_like_callback (getURL wv)); [|done].
    destruct (new_URL (getURL wv)) as [urlObj|]; [|done].
    by destruct (token_detected urlObj). }
  split; [|split; [|split]].
  - unfold output_of. rewrite stop_loading_unfold. cbn [snd].
    destruct (authInProgress rst && looks_like_callback (getURL wv)); [|done].
    destruct (new_URL (getURL wv)) as [urlObj|]; [|done].
    by destruct (token_detected urlObj).
  - unfold output_of, handleLoadFailed, bind. simpl.
    destruct (authInProgress rst); simpl; [done|].
    by destruct (negb (code =? ERR_ABORTED)%Z).
  - rewrite Hout. apply main_run_history.
  - apply main_run_history.
Qed.

(* ===================================================================== *)
(** ** C7: the history query *)
(* ===================================================================== *)

(** C7 does not hold of the code. The history view asks for the list with
    [ipcRenderer.invoke('get-opened-urls')], but the main process registers
    no handler for that channel: the call is rejected, the rejection is
    caught, and the view keeps the list it had. After one logged entry the
    main process holds that entry and the view shows none. *)
Theorem get_opened_urls_unanswered :
  let e := {| url := "https://example.com/";
              timestamp := "2024-01-01T00:00:00.000Z";
              batchId := Some 1%Z |} in
  let main := (main_step running_main (IpcLogUrlOpened e)).1 in
  urlHistory main = [e] /\
  loadHistory true main "" "" initial_history_view =
    ({| hv_urlHistory := []; hv_isLoading := false |},
     [ConsoleError "Failed to load URL history:"]) /\
  (forall st hv now hourAgo,
     hv_urlHistory (loadHistory true st now hourAgo hv).1 = hv_urlHistory hv).
Proof. cbv zeta. repeat split. Qed.

(* ===================================================================== *)
(** ** C8: URLs the parser rejects *)
(* ===================================================================== *)

(** The completed-load check recovers from a parse failure: when the
    [URL] constructor rejects the final URL, the exception is caught inside
    the handler, the auth flag keeps its value, and the load is logged
    like any other. *)
Lemma completed_load_parse_failure_caught `{UrlLibrary}
    (wv : Webview) (batch : option Z) (now : string) (st : RendererState) :
  new_URL (getURL wv) = None ->
  result_of (handleDidStopLoading wv batch now) st = Normal tt /\
  authInProgress (state_after (handleDidStopLoading wv batch now) st)
    = authInProgress st /\
  ipc_to_main (output_of (handleDidStopLoading wv batch now) st)
    = [IpcLogUrlOpened
         {| url := getURL wv; timestamp := now; batchId := batch |}].
Proof.
  intros Hrej. split; [|split].
  - apply (handlers_complete wv (DidStopLoading batch now)).
  - rewrite stop_loading_flag. unfold auth_result_delivered.
    rewrite Hrej, andb_false_r. simpl. apply andb_true_r.
  - unfold output_of. rewrite stop_loading_unfold, Hrej. cbn [snd].
    by destruct (authInProgress st && looks_like_callback (getURL wv)).
Qed.

(** The main process does not recover: when [url.parse] throws, each of
    its three handlers ends by that exception right after its first log,
    without a verdict, a message, a dialog or an answer. *)
Lemma unparsed_url_raises `{UrlLibrary} (st : MainState) (u : string) :
  url_parse_query u = None ->
  onBeforeRedirect st u =
    (Thrown "url.parse", [ConsoleLog "Redirect detected:" u]) /\
  on_will_navigate u =
    (Thrown "url.parse", [ConsoleLog "Navigation in webview:" u]) /\
  setWindowOpenHandler st u =
    (Thrown "url.parse", [ConsoleLog "Attempted to open new window:" u]) /\
  (forall site, classified_at site u = None).
Proof.
  intros Hq. unfold onBeforeRedirect, on_will_navigate, setWindowOpenHandler,
    classified_at. by rewrite Hq.
Qed.

(** C8 does not hold of the main process. The user information of
    [https://%zz@example.com/login] cannot be decoded, so [url.parse]
    throws; the redirect, will-navigate and new-window handlers call it
    outside any [try] and are left by the exception instead of treating
    the URL as ordinary navigation. *)
Theorem malformed_url_raises_in_main :
  let u := "https://%zz@example.com/login" in
  url_parse_query u = None /\
  onBeforeRedirect running_main u =
    (Thrown "url.parse", [ConsoleLog "Redirect detected:" u]) /\
  on_will_navigate u =
    (Thrown "url.parse", [ConsoleLog "Navigation in webview:" u]) /\
  setWindowOpenHandler running_main u =
    (Thrown "url.parse", [ConsoleLog "Attempted to open new window:" u]) /\
  (forall site, classified_at site u = None).
Proof.
  cbv zeta.
  assert (Hq : url_parse_query "https://%zz@example.com/login" = None)
    by (by vm_compute).
  split; [exact Hq|].
  destruct (unparsed_url_raises (H := reference_library) running_main
              "https://%zz@example.com/login" Hq) as (Hr & Hn & Hw & Hc).
  split; [exact Hr|]. split; [exact Hn|]. split; [exact Hw|]. exact Hc.
Qed.

(* ===================================================================== *)
(** ** C9: parameters in the fragment *)
(* ===================================================================== *)




(* ===================================================================== *)
(** ** C10: shell.openExternal *)
(* ===================================================================== *)

Section ShellFacts.
Context `{UrlLibrary}.

Lemma main_step_blocked st ev :
  shell_openExternal st = BlockedOpenExternal ->
  shell_openExternal (main_step st ev).1 = BlockedOpenExternal /\
  List.existsb is_launch (main_step st ev).2 = false.
Proof.
  intros Hb. destruct ev; simpl; try done.
  - by destruct darwin.
  - split; [|done]. by destruct (mainWindow st).
  - split; [done|]. destruct filePath as [p|]; [|done].
    by destruct (truthy p).
  - split; [done|]. unfold onBeforeRedirect.
    destruct (url_parse_query redirectUrl) as [q|]; [|done]. cbn [snd].
    destruct (redirect_is_oauth redirectUrl q); [|done].
    by destruct (mainWindow_alive st).
  - split; [done|]. unfold on_will_navigate.
    destruct (url_parse_query navigateUrl) as [q|]; [|done]. cbn [snd].
    by destruct (navigation_is_oauth navigateUrl q).
  - split; [done|]. unfold setWindowOpenHandler.
    destruct (url_parse_query openUrl) as [q|]; [|done]. cbn [snd].
    destruct (window_open_is_auth openUrl q); [|done].
    by destruct (mainWindow_alive st).
  - split; [done|]. unfold call_openExternal. by rewrite Hb.
Qed.

(** Once the binding is replaced it stays replaced, and no event of the
    main process launches an external browser. *)
Lemma main_run_blocked evs : forall st,
  shell_openExternal st = BlockedOpenExternal ->
  shell_openExternal (main_run st evs).1 = BlockedOpenExternal /\
  List.existsb is_launch (main_run st evs).2 = false.
Proof.
  induction evs as [|ev evs IH]; intros st Hb; [done|].
  rewrite main_run_cons. cbn [fst snd].
  destruct (main_step_blocked st ev Hb) as [Hb1 Hout1].
  destruct (IH _ Hb1) as [Hb2 Hout2].
  split; [done|]. by rewrite existsb_app, Hout1, Hout2.
Qed.

End ShellFacts.

(** The model can tell the difference: under the native binding a call
    does launch the external browser. *)
Lemma native_binding_launches :
  (main_run initial_main [CallOpenExternal "https://example.com/"]).2
  = [LaunchExternalBrowser "https://example.com/"].
Proof. reflexivity. Qed.

(** C10. From the first startup event on (['will-finish-launching'], and
    again ['ready']), [shell.openExternal] is the replacement that logs and
    returns a resolved promise. Whatever events follow, calls of
    [shell.openExternal] included, the binding stays replaced and no
    external browser is ever launched. *)
Theorem external_browser_blocked `{UrlLibrary}
    (st : MainState) (evs : list main_event) (target : string) :
  let after startup := main_run st (startup :: evs) in
  blocked_openExternal target =
    ([ConsoleLog "Blocked attempt to open external browser with URL:" target],
     PromiseResolved) /\
  (call_openExternal (after AppWillFinishLaunching).1 target
     = blocked_openExternal target /\
   List.existsb is_launch (after AppWillFinishLaunching).2 = false) /\
  (call_openExternal (after AppReady).1 target = blocked_openExternal target /\
   List.existsb is_launch (after AppReady).2 = false).
Proof.
  cbv zeta. split; [done|].
  split; rewrite main_run_cons; cbn [fst snd main_step app].
  - destruct (main_run_blocked evs (override_openExternal st) eq_refl)
      as [Hb Hout].
    split; [|done]. unfold call_openExternal. by rewrite Hb.
  - destruct (main_run_blocked evs (createWindow (override_openExternal st))
                eq_refl) as [Hb Hout].
    split; [|done]. unfold call_openExternal. by rewrite Hb.
Qed.

(* ===================================================================== *)
(** ** Further properties: the main process *)
(* ===================================================================== *)

(** X1. Whatever the server sent, the response headers handed back carry
    the permissive Content-Security-Policy and [Access-Control-Allow-Origin:
    *]; every header under another name is kept as received, a policy the
    server sent under the lower-case name included; rewriting twice equals
    rewriting once. *)
Theorem response_headers_forced (h : gmap string (list string)) :
  onHeadersReceived h !! csp_header = Some [permissive_csp] /\
  onHeadersReceived h !! acao_header = Some ["*"] /\
  (forall k, k <> csp_header -> k <> acao_header ->
             onHeadersReceived h !! k = h !! k) /\
  onHeadersReceived h !! "content-security-policy"
    = h !! "content-security-policy" /\
  onHeadersReceived (onHeadersReceived h) = onHeadersReceived h.
Proof.
  unfold onHeadersReceived. split; [|split; [|split; [|split]]].
  - rewrite lookup_insert_ne by done. apply lookup_insert_eq.
  - apply lookup_insert_eq.
  - intros k Hc Ha. by rewrite !lookup_insert_ne.
  - by rewrite !lookup_insert_ne.
  - apply map_eq. intros k. rewrite !lookup_insert.
    repeat case_decide; done.
Qed.

Lemma response_headers_forced_witness :
  let h : gmap string (list string) :=
    {[ "content-security-policy" := ["default-src 'none'"];
       "Content-Type" := ["text/html"] ]} in
  onHeadersReceived h !! "Content-Type" = Some ["text/html"] /\
  onHeadersReceived h !! "content-security-policy"
    = Some ["default-src 'none'"] /\
  onHeadersReceived h !! csp_header = Some [permissive_csp].
Proof.
  cbv zeta.
  destruct (response_headers_forced
              {[ "content-security-policy" := ["default-src 'none'"];
                 "Content-Type" := ["text/html"] ]})
    as (Hcsp & _ & Hother & Hlow & _).
  split; [|split].
  - rewrite (Hother "Content-Type"); [reflexivity | discriminate..].
  - rewrite Hlow. reflexivity.
  - exact Hcsp.
Defined.

Lemma request_headers_unfold (h : gmap string string) :
  requestHeaders (onBeforeSendHeaders h) =
  foldl (fun m p => <[p.1 := p.2]> m) h fixed_request_headers.
Proof. reflexivity. Qed.

(** X2. The request-header rewriting never cancels a request. Each of the
    six fixed headers has its fixed value afterwards, whatever the request
    carried; a header under any other name is untouched; rewriting twice
    equals rewriting once. *)
Theorem request_headers_forced (h : gmap string string) :
  cancel (onBeforeSendHeaders h) = false /\
  (forall k v, (k, v) ∈ fixed_request_headers ->
               requestHeaders (onBeforeSendHeaders h) !! k = Some v) /\
  (forall k, k ∉ fixed_request_headers.*1 ->
             requestHeaders (onBeforeSendHeaders h) !! k = h !! k) /\
  onBeforeSendHeaders (requestHeaders (onBeforeSendHeaders h))
    = onBeforeSendHeaders h.
Proof.
  split; [done|]. split; [|split].
  - intros k v Hin. rewrite request_headers_unfold.
    unfold fixed_request_headers in *. cbn [foldl fst snd].
    rewrite !elem_of_cons, elem_of_nil in Hin.
    destruct Hin as [[= -> ->]|[[= -> ->]|[[= -> ->]|[[= -> ->]|
                    [[= -> ->]|[[= -> ->]|[]]]]]]];
      rewrite ?lookup_insert_ne by done; apply lookup_insert_eq.
  - intros k Hk. rewrite request_headers_unfold.
    unfold fixed_request_headers in *. cbn [foldl fst snd fmap list_fmap] in *.
    rewrite !not_elem_of_cons in Hk.
    destruct Hk as (? & ? & ? & ? & ? & ? & _).
    by rewrite !lookup_insert_ne.
  - unfold onBeforeSendHeaders. f_equal.
    unfold fixed_request_headers. cbn [foldl fst snd requestHeaders].
    apply map_eq. intros k. rewrite !lookup_insert.
    repeat case_decide; done.
Qed.

Lemma request_headers_forced_witness :
  let h : gmap string string :=
    {[ "User-Agent" := "Electron"; "Cookie" := "sid=1" ]} in
  requestHeaders (onBeforeSendHeaders h) !! "Cookie" = Some "sid=1" /\
  requestHeaders (onBeforeSendHeaders h) !! "Connection" = Some "keep-alive".
Proof.
  cbv zeta.
  destruct (request_headers_forced
              {[ "User-Agent" := "Electron"; "Cookie" := "sid=1" ]})
    as (_ & Hfixed & Hother & _).
  split.
  - rewrite (Hother "Cookie"); [reflexivity|].
    unfold fixed_request_headers. cbn [fmap list_fmap fst].
    rewrite !not_elem_of_cons. repeat split; try discriminate.
    apply not_elem_of_nil.
  - apply Hfixed. unfold fixed_request_headers.
    rewrite !elem_of_cons. tauto.
Defined.

(** X3. The main process tells the view to load a URL only in answer to a
    redirect or a new-window request, only for the URL of that very event,
    only when [url.parse] accepted the URL and the event's test classified
    it, and only while the window is alive. A handler left by the
    exception of [url.parse], an IPC message from the renderer, a
    lifecycle event or a will-navigate sends nothing to the view. *)
Theorem forward_only_from_navigation `{UrlLibrary}
    (st : MainState) (ev : main_event) :
  ipc_to_renderer (main_step st ev).2 =
  match ev with
  | BeforeRedirect u =>
      match url_parse_query u with
      | Some q =>
          if redirect_is_oauth u q && mainWindow_alive st
          then [AuthRedirectMessage u] else []
      | None => []
      end
  | WindowOpen u =>
      match url_parse_query u with
      | Some q =>
          if window_open_is_auth u q && mainWindow_alive st
          then [AuthRedirectMessage u] else []
      | None => []
      end
  | _ => []
  end.
Proof.
  destruct ev; cbn [main_step snd fst on_log_url_opened]; try reflexivity.
  - by destruct darwin.
  - destruct filePath as [p|]; [|done]. by destruct (truthy p).
  - unfold onBeforeRedirect.
    destruct (url_parse_query redirectUrl) as [q|]; [|done]. cbn [snd].
    by destruct (redirect_is_oauth redirectUrl q), (mainWindow_alive st).
  - unfold on_will_navigate.
    destruct (url_parse_query navigateUrl) as [q|]; [|done]. cbn [snd].
    by destruct (navigation_is_oauth navigateUrl q).
  - unfold setWindowOpenHandler.
    destruct (url_parse_query openUrl) as [q|]; [|done]. cbn [snd].
    by destruct (window_open_is_auth openUrl q), (mainWindow_alive st).
  - unfold call_openExternal, blocked_openExternal.
    by destruct (shell_openExternal st).
Qed.

(** X4. When [mainWindow] is unset or destroyed, an auth-classified
    new-window request or redirect (its URL accepted by [url.parse]) is
    dropped without a trace for the user: nothing is sent to the view and
    no dialog is shown; the window is still denied. *)
Theorem auth_url_dropped_without_window `{UrlLibrary}
    (st : MainState) (u : string) (q : gmap string qvalue) :
  url_parse_query u = Some q ->
  mainWindow_alive st = false ->
  (window_open_is_auth u q = true ->
     setWindowOpenHandler st u =
       (Normal ActionDeny, [ConsoleLog "Attempted to open new window:" u])) /\
  (redirect_is_oauth u q = true ->
     onBeforeRedirect st u =
       (Normal tt,
        [ConsoleLog "Redirect detected:" u;
         ConsoleLog "OAuth redirect detected:" u])).
Proof.
  intros Hq Hdead. unfold setWindowOpenHandler, onBeforeRedirect.
  rewrite Hq, Hdead. split; intros ->; reflexivity.
Qed.

Lemma auth_url_dropped_without_window_witness :
  let st := (main_step running_main MainWindowClosed).1 in
  url_parse_query "https://example.com/login" = Some ∅ /\
  mainWindow_alive st = false /\
  setWindowOpenHandler st "https://example.com/login" =
    (Normal ActionDeny,
     [ConsoleLog "Attempted to open new window:" "https://example.com/login"]).
Proof.
  cbv zeta.
  assert (Hq : url_parse_query "https://example.com/login"
               = Some (∅ : gmap string qvalue)) by (by vm_compute).
  split; [exact Hq|]. split; [reflexivity|].
  apply (auth_url_dropped_without_window (H := reference_library)
           (main_step running_main MainWindowClosed).1
           "https://example.com/login" ∅ Hq eq_refl).
  by vm_compute.
Defined.

Section SimpleFacts.
Context `{UrlLibrary}.

Lemma simple_run_cons st ev evs :
  ElectronSimple.run st (ev :: evs) =
  ((ElectronSimple.run (ElectronSimple.step st ev).1 evs).1,
   (ElectronSimple.step st ev).2
     ++ (ElectronSimple.run (ElectronSimple.step st ev).1 evs).2).
Proof.
  simpl. destruct (ElectronSimple.step st ev) as [st1 out1]. simpl.
  by destruct (ElectronSimple.run st1 evs).
Qed.

(** One step of either script keeps the two mains in agreement on the
    window and the history. *)
Lemma simple_step_agrees st1 st2 ev :
  mainWindow st1 = mainWindow st2 -> urlHistory st1 = urlHistory st2 ->
  let st2' := match ElectronSimple.to_main ev with
              | Some mev => (main_step st2 mev).1
              | None => st2
              end in
  mainWindow (ElectronSimple.step st1 ev).1 = mainWindow st2' /\
  urlHistory (ElectronSimple.step st1 ev).1 = urlHistory st2'.
Proof.
  intros Hw Hh. destruct ev; simpl; rewrite ?Hw, ?Hh; try done.
  destruct (mainWindow st2) eqn:Hm; simpl; by rewrite ?Hw, ?Hh, ?Hm.
Qed.

Lemma simple_run_agrees evs : forall st1 st2,
  mainWindow st1 = mainWindow st2 -> urlHistory st1 = urlHistory st2 ->
  mainWindow (ElectronSimple.run st1 evs).1
    = mainWindow (main_run st2 (omap ElectronSimple.to_main evs)).1 /\
  urlHistory (ElectronSimple.run st1 evs).1
    = urlHistory (main_run st2 (omap ElectronSimple.to_main evs)).1.
Proof.
  induction evs as [|ev evs IH]; intros st1 st2 Hw Hh; [done|].
  rewrite simple_run_cons. cbn [fst omap list_omap].
  destruct (simple_step_agrees st1 st2 ev Hw Hh) as [Hw' Hh'].
  destruct (ElectronSimple.to_main ev) as [mev|].
  - rewrite main_run_cons. cbn [fst]. by apply IH.
  - by apply IH.
Qed.

Lemma simple_step_binding st ev :
  shell_openExternal (ElectronSimple.step st ev).1 = shell_openExternal st.
Proof. destruct ev; simpl; try done. by destruct (mainWindow st). Qed.

Lemma simple_run_binding evs : forall st,
  shell_openExternal (ElectronSimple.run st evs).1 = shell_openExternal st.
Proof.
  induction evs as [|ev evs IH]; intros st; [done|].
  rewrite simple_run_cons. cbn [fst]. by rewrite IH, simple_step_binding.
Qed.

End SimpleFacts.

(** X5. The two main scripts keep the same window reference and the same
    history: after any sequence of the events [electron-simple.js] listens
    to, its [mainWindow] and [urlHistory] equal those of [electron.js] after
    the corresponding events. *)
Theorem simple_main_agrees `{UrlLibrary}
    (st : MainState) (evs : list ElectronSimple.event) :
  mainWindow (ElectronSimple.run st evs).1
    = mainWindow (main_run st (omap ElectronSimple.to_main evs)).1 /\
  urlHistory (ElectronSimple.run st evs).1
    = urlHistory (main_run st (omap ElectronSimple.to_main evs)).1.
Proof. by apply simple_run_agrees. Qed.

(** X6. [electron-simple.js] never rebinds [shell.openExternal]: after any
    sequence of its events, from the initial bindings, a call still
    launches the external browser. *)
Theorem simple_main_never_blocks
    (evs : list ElectronSimple.event) (target : string) :
  shell_openExternal (ElectronSimple.run initial_main evs).1
    = NativeOpenExternal /\
  (ElectronSimple.step (ElectronSimple.run initial_main evs).1
     (ElectronSimple.CallShellOpenExternal target)).2
    = [LaunchExternalBrowser target].
Proof.
  assert (Hb := simple_run_binding evs initial_main).
  split; [exact Hb|].
  cbn [ElectronSimple.step snd]. unfold call_openExternal.
  by rewrite Hb.
Qed.

(* ===================================================================== *)
(** ** Further properties: the embedded browser *)
(* ===================================================================== *)

Section MoreRendererFacts.
Context `{UrlLibrary}.

Lemma renderer_run_cons wv ev evs st :
  renderer_run ((wv, ev) :: evs) st =
  ((renderer_run evs (state_after (renderer_handler wv ev) st)).1,
   output_of (renderer_handler wv ev) st
     ++ (renderer_run evs (state_after (renderer_handler wv ev) st)).2).
Proof.
  unfold state_after, output_of. simpl.
  destruct (renderer_handler wv ev st) as [[r st1] out1]. simpl.
  by destruct (renderer_run evs st1).
Qed.

(** Only a delivering completed load clears the flag. *)
Lemma flag_survives wv ev st :
  authInProgress st = true ->
  delivers_result (wv, ev) = false ->
  authInProgress (state_after (renderer_handler wv ev) st) = true.
Proof.
  intros Hp Hd. destruct ev as [| batch now | nav | t | t | c d v | u];
    cbn [renderer_handler].
  - done.
  - rewrite stop_loading_flag, Hp. unfold delivers_result in Hd.
    cbn [fst snd] in Hd. by rewrite Hd.
  - by rewrite finish_load_flag.
  - by rewrite will_navigate_flag, Hp.
  - by rewrite new_window_flag, Hp.
  - by rewrite load_failed_flag.
  - apply auth_redirect_flag.
Qed.

Lemma auth_redirect_loaded wv u st :
  isWebviewReady st = true -> has_loadURL wv = true ->
  loadURL_throws wv u = false ->
  handleAuthRedirect (Some wv) u st =
  (Normal tt,
   {| currentUrl := u; title := title st; isLoading := isLoading st;
      canGoBack := canGoBack st; canGoForward := canGoForward st;
      isWebviewReady := true; authInProgress := true |},
   [ConsoleLog "Auth redirect received:" u; WebviewLoadURL u]).
Proof.
  intros Hr Hl Ht. unfold handleAuthRedirect, bind, try_catch, loadURL.
  simpl. by rewrite Hr, Hl, Ht.
Qed.

End MoreRendererFacts.

Lemma load_failed_suppressed code desc validated st :
  authInProgress st = true ->
  state_after (handleLoadFailed code desc validated) st = st.
Proof.
  intros Hp. unfold state_after, handleLoadFailed, bind. simpl.
  rewrite Hp. simpl. by destruct st.
Qed.

(** X7. A pending auth flow has no way out but a delivering completed
    load: through any sequence of events none of which is a completed load
    that passes the check, the session stays [AuthPending], and a load
    failure arriving after it is still suppressed. *)
Theorem pending_persists `{UrlLibrary}
    (evs : list (Webview * renderer_event)) (st : RendererState)
    (code : Z) (desc validated : string) :
  authInProgress st = true ->
  forallb (fun x => negb (delivers_result x)) evs = true ->
  authInProgress (renderer_run evs st).1 = true /\
  state_after (handleLoadFailed code desc validated) (renderer_run evs st).1
    = (renderer_run evs st).1.
Proof.
  intros Hp Hnone.
  assert (Hflag : authInProgress (renderer_run evs st).1 = true).
  { revert st Hp Hnone. induction evs as [|[wv ev] evs IH]; intros st Hp Hnone.
    - done.
    - cbn [forallb] in Hnone. apply andb_true_iff in Hnone as [Hev Hrest].
      apply negb_true_iff in Hev.
      rewrite renderer_run_cons. cbn [fst].
      apply IH; [by apply flag_survives | done]. }
  split; [done|]. by apply load_failed_suppressed.
Qed.

Lemma pending_persists_witness :
  let st := with_auth (initial_renderer "") true in
  let evs :=
    [(plain_webview "https://example.com/cb#code=abc", DidStopLoading None "T");
     (plain_webview "https://example.com/home", WillNavigate "https://example.com/home");
     (plain_webview "https://example.com/home", DidFinishLoad false)] in
  authInProgress st = true /\
  session_state (renderer_run evs st).1 = AuthPending.
Proof.
  cbv zeta. split; [reflexivity|].
  apply pending_iff.
  apply (pending_persists (H := reference_library)
           [(plain_webview "https://example.com/cb#code=abc",
             DidStopLoading None "T");
            (plain_webview "https://example.com/home",
             WillNavigate "https://example.com/home");
            (plain_webview "https://example.com/home", DidFinishLoad false)]
           (with_auth (initial_renderer "") true)
           (-105)%Z "ERR_NAME_NOT_RESOLVED" "https://example.com/"
           eq_refl eq_refl).
Defined.

(** X8. The auth flag is set before the load is attempted: when [loadURL]
    throws, the new-window handler and the auth-redirect listener catch
    the exception and log it, start no load and leave the address
    unchanged, yet the session is [AuthPending]. *)
Theorem failed_load_keeps_pending `{UrlLibrary}
    (wv : Webview) (u : string) (st : RendererState) :
  has_loadURL wv = true -> loadURL_throws wv u = true ->
  (new_window_is_auth u = true ->
     handleNewWindow wv u st =
       (Normal tt, with_auth st true,
        [PreventDefault;
         ConsoleLog "New window requested for URL:" u;
         ConsoleLog "Auth URL detected in new window request" "";
         ConsoleError "Error loading new window URL:"])) /\
  (isWebviewReady st = true ->
     handleAuthRedirect (Some wv) u st =
       (Normal tt, with_auth st true,
        [ConsoleLog "Auth redirect received:" u;
         ConsoleError "Error loading redirect URL:"])).
Proof.
  intros Hl Ht. split.
  - intros Hkw. unfold handleNewWindow, bind, try_catch, loadURL. simpl.
    rewrite Hkw. simpl. by rewrite Hl, Ht.
  - intros Hr.
    unfold handleAuthRedirect, with_auth, bind, try_catch, loadURL. simpl.
    by rewrite Hr, Hl, Ht.
Qed.

Lemma failed_load_keeps_pending_witness :
  let wv := {| getURL := ""; getTitle := ""; wv_canGoBack := false;
               wv_canGoForward := false; has_loadURL := true;
               loadURL_throws := fun _ => true |} in
  let st := initial_renderer "https://example.com/" in
  session_state (state_after (handleNewWindow wv "https://example.com/login") st)
    = AuthPending /\
  currentUrl (state_after (handleNewWindow wv "https://example.com/login") st)
    = "https://example.com/" /\
  loads_of (output_of (handleNewWindow wv "https://example.com/login") st) = [].
Proof.
  cbv zeta.
  destruct (failed_load_keeps_pending (H := reference_library)
              {| getURL := ""; getTitle := ""; wv_canGoBack := false;
                 wv_canGoForward := false; has_loadURL := true;
                 loadURL_throws := fun _ => true |}
              "https://example.com/login"
              (initial_renderer "https://example.com/") eq_refl eq_refl)
    as [Hnew _].
  unfold state_after, output_of. rewrite (Hnew eq_refl). by repeat split.
Defined.

(** X9. An auth redirect that arrives before the webview is ready only
    sets the flag: the URL is neither loaded nor kept. Once
    [handleWebviewReady] has run, the same message makes the view load the
    URL (its [loadURL] being present and not throwing). *)
Theorem auth_redirect_needs_ready `{UrlLibrary}
    (wv : Webview) (u : string) (st : RendererState)
    (hasGetWebContentsId configureThrows : bool) :
  (isWebviewReady st = false ->
     handleAuthRedirect (Some wv) u st =
       (Normal tt, with_auth st true,
        [ConsoleLog "Auth redirect received:" u])) /\
  (has_loadURL wv = true -> loadURL_throws wv u = false ->
     let st1 :=
       state_after (handleWebviewReady wv hasGetWebContentsId configureThrows) st in
     isWebviewReady st1 = true /\
     loads_of (output_of (handleAuthRedirect (Some wv) u) st1) = [u] /\
     currentUrl (state_after (handleAuthRedirect (Some wv) u) st1) = u).
Proof.
  split.
  - intros Hr. unfold handleAuthRedirect, with_auth, bind. simpl.
    by rewrite Hr.
  - intros Hl Ht. cbv zeta.
    assert (Hready : isWebviewReady
              (state_after
                 (handleWebviewReady wv hasGetWebContentsId configureThrows) st)
              = true).
    { unfold state_after, handleWebviewReady, bind, try_catch, loadURL, throw.
      simpl. destruct hasGetWebContentsId, configureThrows; simpl;
        (destruct (truthy (currentUrl st) && has_loadURL wv); simpl;
         [by destruct (loadURL_throws wv (currentUrl st)) | done]). }
    split; [done|].
    unfold state_after, output_of in *.
    by rewrite (auth_redirect_loaded wv u _ Hready Hl Ht).
Qed.

Lemma auth_redirect_needs_ready_witness :
  let u := "https://example.com/callback?code=abc" in
  let st := initial_renderer "" in
  isWebviewReady st = false /\
  loads_of (output_of (handleAuthRedirect (Some (plain_webview "")) u) st) = [] /\
  loads_of
    (output_of (handleAuthRedirect (Some (plain_webview "")) u)
       (state_after (handleWebviewReady (plain_webview "") false false) st))
    = [u].
Proof.
  cbv zeta. split; [reflexivity|].
  destruct (auth_redirect_needs_ready (H := reference_library)
              (plain_webview "") "https://example.com/callback?code=abc"
              (initial_renderer "") false false) as [Hdrop Hload].
  split.
  - unfold output_of. by rewrite (Hdrop eq_refl).
  - by destruct (Hload eq_refl eq_refl) as (_ & Hl & _).
Defined.

(** X10. One new-window request whose URL [url.parse] accepts, seen by
    both processes (main window alive, webview ready, [loadURL] present
    and not throwing): the session ends [AuthPending] exactly when it was
    already or the main process's test accepts the URL, and the view is
    told to load the URL once for the main process's verdict and once
    more for the renderer's own, so twice when the URL contains auth,
    login, sso, oauth or callback. *)
Theorem new_window_loads `{UrlLibrary}
    (main : MainState) (wv : Webview) (u : string) (q : gmap string qvalue)
    (st : RendererState) :
  url_parse_query u = Some q ->
  mainWindow_alive main = true -> isWebviewReady st = true ->
  has_loadURL wv = true -> loadURL_throws wv u = false ->
  authInProgress (new_window_request main wv u st).1
    = authInProgress st || window_open_is_auth u q /\
  loads_of (new_window_request main wv u st).2
    = (if window_open_is_auth u q then [u] else [])
      ++ (if new_window_is_auth u then [u] else []).
Proof.
  intros Hq Ha Hr Hl Ht. unfold new_window_request, setWindowOpenHandler.
  rewrite Hq, Ha. cbn [snd].
  destruct (window_open_is_auth u q) eqn:Hw.
  - cbn [ipc_to_renderer omap list_omap String.eqb Ascii.eqb Bool.eqb app map
         list_fmap fmap].
    rewrite !renderer_run_cons. cbn [renderer_run fst snd renderer_handler].
    unfold state_after, output_of.
    rewrite (auth_redirect_loaded wv u st Hr Hl Ht). cbn [fst snd].
    rewrite orb_true_r.
    destruct (new_window_is_auth u) eqn:Hn.
    + rewrite (new_window_forwarded wv u _ Hn Hl Ht). by split.
    + rewrite (new_window_ignored wv u _ Hn). by split.
  - assert (Hn : new_window_is_auth u = false).
    { destruct (new_window_is_auth u) eqn:Hn; [|done].
      apply (new_window_within_window_open u q) in Hn. congruence. }
    rewrite Hn.
    cbn [ipc_to_renderer omap list_omap app map list_fmap fmap].
    rewrite renderer_run_cons. cbn [renderer_run fst snd renderer_handler].
    unfold state_after, output_of.
    rewrite (new_window_ignored wv u st Hn). cbn [fst snd].
    by rewrite orb_false_r.
Qed.

Lemma new_window_loads_witness :
  let st := state_after (handleWebviewReady (plain_webview "") false false)
              (initial_renderer "") in
  url_parse_query "https://example.com/login?token=xyz"
    = Some {[ "token" := QString "xyz" ]} /\
  mainWindow_alive running_main = true /\
  loads_of
    (new_window_request running_main (plain_webview "")
       "https://example.com/login?token=xyz" st).2
  = ["https://example.com/login?token=xyz";
     "https://example.com/login?token=xyz"].
Proof.
  cbv zeta.
  assert (Hq : url_parse_query "https://example.com/login?token=xyz"
               = Some ({[ "token" := QString "xyz" ]} : gmap string qvalue))
    by (by vm_compute).
  split; [exact Hq|]. split; [reflexivity|].
  destruct (new_window_loads (H := reference_library) running_main
              (plain_webview "") "https://example.com/login?token=xyz"
              {[ "token" := QString "xyz" ]}
              (state_after (handleWebviewReady (plain_webview "") false false)
                 (initial_renderer ""))
              Hq eq_refl eq_refl eq_refl eq_refl) as [_ Hloads].
  rewrite Hloads. by vm_compute.
Defined.

Lemma truthy_spec s : truthy s = true <-> s <> "".
Proof. destruct s; simpl; split; (done || discriminate). Qed.

(** X11. The effect that follows the [url] prop does nothing when the prop
    is empty or already equals the current URL; otherwise it makes the
    current URL equal to the prop. Running it a second time changes
    nothing and emits nothing, so re-running it after its own state change
    comes to rest. *)
Theorem sync_url_settles
    (urlProp : string) (wvref : option Webview) (st : RendererState) :
  let st1 := state_after (syncUrlEffect urlProp wvref) st in
  (urlProp = "" \/ urlProp = currentUrl st ->
     syncUrlEffect urlProp wvref st = (Normal tt, st, [])) /\
  (urlProp <> "" -> currentUrl st1 = urlProp) /\
  syncUrlEffect urlProp wvref st1 = (Normal tt, st1, []) /\
  result_of (syncUrlEffect urlProp wvref) st = Normal tt.
Proof.
  cbv zeta.
  assert (Hnoop : forall s, urlProp = "" \/ urlProp = currentUrl s ->
            syncUrlEffect urlProp wvref s = (Normal tt, s, [])).
  { intros s Hs. unfold syncUrlEffect, bind. simpl.
    destruct Hs as [->| ->]; [done|].
    by rewrite String.eqb_refl, andb_false_r. }
  assert (Hcur : urlProp <> "" ->
            currentUrl (state_after (syncUrlEffect urlProp wvref) st) = urlProp).
  { intros Hne. unfold state_after, syncUrlEffect, bind, try_catch, loadURL.
    simpl. apply truthy_spec in Hne. rewrite Hne. simpl.
    destruct (String.eqb_spec urlProp (currentUrl st)) as [Heq|Hd]; simpl.
    - done.
    - destruct wvref as [wv|]; [|done].
      destruct (isWebviewReady st && has_loadURL wv); [|done].
      by destruct (loadURL_throws wv urlProp). }
  split; [apply Hnoop|]. split; [exact Hcur|]. split.
  - apply Hnoop. destruct (decide (urlProp = "")) as [->|Hne]; [by left|].
    right. by rewrite Hcur.
  - unfold result_of, syncUrlEffect, bind, try_catch, loadURL. simpl.
    destruct (truthy urlProp && negb (urlProp =? currentUrl st)%string);
      [|done].
    simpl. destruct wvref as [wv|]; [|done].
    destruct (isWebviewReady st && has_loadURL wv); [|done].
    by destruct (loadURL_throws wv urlProp).
Qed.

Lemma sync_url_settles_witness :
  let st := initial_renderer "https://example.com/a" in
  currentUrl
    (state_after (syncUrlEffect "https://example.com/b" None) st)
  = "https://example.com/b".
Proof.
  cbv zeta.
  destruct (sync_url_settles "https://example.com/b" None
              (initial_renderer "https://example.com/a")) as (_ & Hcur & _).
  apply Hcur. discriminate.
Defined.

(** X12. While the [url] prop is non-empty it wins over the address bar and
    over navigation: when the prop effect runs after [handleUrlChange] or
    after [handleWillNavigate], the current URL is the prop again, and if
    the typed or navigated URL differed from the prop the view (ready,
    [loadURL] present and not throwing) is told to load the prop URL. *)
Theorem url_prop_wins
    (wv : Webview) (urlProp other : string) (st : RendererState) :
  urlProp <> "" ->
  currentUrl
    (state_after (handleUrlChange other ;; syncUrlEffect urlProp (Some wv)) st)
    = urlProp /\
  currentUrl
    (state_after (handleWillNavigate other ;; syncUrlEffect urlProp (Some wv)) st)
    = urlProp /\
  (other <> urlProp -> isWebviewReady st = true -> has_loadURL wv = true ->
   loadURL_throws wv urlProp = false ->
   loads_of
     (output_of (handleUrlChange other ;; syncUrlEffect urlProp (Some wv)) st)
     = [urlProp] /\
   loads_of
     (output_of (handleWillNavigate other ;; syncUrlEffect urlProp (Some wv)) st)
     = [urlProp]).
Proof.
  intros Hne. pose proof (proj2 (truthy_spec urlProp) Hne) as Htr.
  split; [|split].
  - unfold state_after, handleUrlChange, syncUrlEffect, bind, try_catch,
      loadURL. simpl. rewrite Htr. simpl.
    destruct (String.eqb_spec urlProp other) as [<-|_]; simpl; [done|].
    destruct (isWebviewReady st && has_loadURL wv); [|done].
    by destruct (loadURL_throws wv urlProp).
  - unfold state_after, handleWillNavigate, syncUrlEffect, bind, try_catch,
      loadURL. simpl. rewrite Htr.
    destruct (includes other "oauth" || includes other "auth" ||
              includes other "login" || includes other "sso"); simpl;
      (destruct (String.eqb_spec urlProp other) as [<-|_]; simpl; [done|];
       destruct (isWebviewReady st && has_loadURL wv); [|done];
       by destruct (loadURL_throws wv urlProp)).
  - intros Hd Hr Hl Ht.
    split.
    + unfold output_of, handleUrlChange, syncUrlEffect, bind, try_catch,
        loadURL. simpl. rewrite Htr. simpl.
      destruct (String.eqb_spec urlProp other) as [Heq|_]; [congruence|].
      simpl. by rewrite Hr, Hl, Ht.
    + unfold output_of, handleWillNavigate, syncUrlEffect, bind, try_catch,
        loadURL. simpl. rewrite Htr.
      destruct (includes other "oauth" || includes other "auth" ||
                includes other "login" || includes other "sso"); simpl;
        (destruct (String.eqb_spec urlProp other) as [Heq|_]; [congruence|];
         simpl; by rewrite Hr, Hl, Ht).
Qed.

Lemma url_prop_wins_witness :
  let st := state_after (handleWebviewReady (plain_webview "") false false)
              (initial_renderer "https://example.com/start") in
  currentUrl
    (state_after
       (handleUrlChange "https://example.com/typed" ;;
        syncUrlEffect "https://example.com/start" (Some (plain_webview ""))) st)
  = "https://example.com/start".
Proof.
  cbv zeta.
  destruct (url_prop_wins (plain_webview "") "https://example.com/start"
              "https://example.com/typed"
              (state_after (handleWebviewReady (plain_webview "") false false)
                 (initial_renderer "https://example.com/start")))
    as (Htyped & _ & _); [discriminate|].
  exact Htyped.
Defined.

(** X13. Submitting the address bar never changes the component's state.
    With an empty address, or a webview without [loadURL], it only
    prevents the form's default; otherwise it asks the view to load the
    address. Unlike the navigation handlers it has no [try]: an exception
    thrown by [loadURL] leaves the handler. The "Reload current URL" button
    does the same load, without the [preventDefault]. *)
Theorem url_submit_behaviour (wv : Webview) (st : RendererState) :
  state_after (handleUrlSubmit (Some wv)) st = st /\
  (currentUrl st = "" \/ has_loadURL wv = false ->
     handleUrlSubmit (Some wv) st = (Normal tt, st, [PreventDefault])) /\
  (currentUrl st <> "" -> has_loadURL wv = true ->
     handleUrlSubmit (Some wv) st =
       if loadURL_throws wv (currentUrl st)
       then (Thrown "loadURL", st, [PreventDefault])
       else (Normal tt, st, [PreventDefault; WebviewLoadURL (currentUrl st)])) /\
  result_of (handleOpenExternal (Some wv)) st
    = result_of (handleUrlSubmit (Some wv)) st /\
  output_of (handleUrlSubmit (Some wv)) st
    = PreventDefault :: output_of (handleOpenExternal (Some wv)) st.
Proof.
  unfold state_after, result_of, output_of, handleUrlSubmit,
    handleOpenExternal, bind, loadURL, throw, emit. simpl.
  split; [|split; [|split; [|split]]].
  - destruct (has_loadURL wv), (truthy (currentUrl st)); simpl;
      try by destruct st.
    destruct (loadURL_throws wv (currentUrl st)); by destruct st.
  - intros [Hc|Hl].
    + rewrite Hc. simpl. rewrite andb_false_r. by destruct st.
    + rewrite Hl. simpl. by destruct st.
  - intros Hc%truthy_spec Hl. rewrite Hc, Hl. simpl.
    destruct (loadURL_throws wv (currentUrl st)); by destruct st.
  - destruct (has_loadURL wv), (truthy (currentUrl st)); simpl; try done.
    by destruct (loadURL_throws wv (currentUrl st)).
  - destruct (has_loadURL wv), (truthy (currentUrl st)); simpl; try done.
    by destruct (loadURL_throws wv (currentUrl st)).
Qed.

Lemma url_submit_behaviour_witness :
  let wv := {| getURL := ""; getTitle := ""; wv_canGoBack := false;
               wv_canGoForward := false; has_loadURL := true;
               loadURL_throws := fun _ => true |} in
  result_of (handleUrlSubmit (Some wv)) (initial_renderer "https://example.com/")
    = Thrown "loadURL" /\
  handleUrlSubmit (Some (plain_webview "")) (initial_renderer "")
    = (Normal tt, initial_renderer "", [PreventDefault]).
Proof.
  cbv zeta. split.
  - destruct (url_submit_behaviour
                {| getURL := ""; getTitle := ""; wv_canGoBack := false;
                   wv_canGoForward := false; has_loadURL := true;
                   loadURL_throws := fun _ => true |}
                (initial_renderer "https://example.com/"))
      as (_ & _ & Hload & _).
    unfold result_of. rewrite Hload; [reflexivity | discriminate | reflexivity].
  - destruct (url_submit_behaviour (plain_webview "") (initial_renderer ""))
      as (_ & Hempty & _).
    apply Hempty. by left.
Defined.

(** X14. Two of the tested substrings decide nothing. Every string that
    contains [oauth] contains [auth], and every string that contains
    [access_token] contains [token]: the redirect and new-window tests are
    the ones without [oauth], the will-navigate test is auth, login or sso,
    and the completed-load gate is callback, token, auth or code. *)
Theorem redundant_keywords `{UrlLibrary}
    (u : string) (q : gmap string qvalue) (st : RendererState) :
  redirect_is_oauth u q =
    (includes u "auth" || includes u "signin" || includes u "login" ||
     includes u "sso" || includes u "callback") && query_has_token q /\
  window_open_is_auth u q =
    (includes u "auth" || includes u "login" || includes u "sso" ||
     includes u "signin" || includes u "callback") || query_has_token q /\
  new_window_is_auth u =
    includes u "auth" || includes u "login" || includes u "sso" ||
    includes u "callback" /\
  authInProgress (state_after (handleWillNavigate u) st) =
    authInProgress st ||
    (includes u "auth" || includes u "login" || includes u "sso") /\
  looks_like_callback u =
    includes u "callback" || includes u "token" || includes u "auth" ||
    includes u "code".
Proof.
  assert (Ho : includes u "oauth" = true -> includes u "auth" = true)
    by apply oauth_is_auth.
  assert (Ha : includes u "access_token" = true -> includes u "token" = true).
  { apply includes_mono. reflexivity. }
  rewrite will_navigate_flag.
  unfold redirect_is_oauth, window_open_is_auth, new_window_is_auth,
    looks_like_callback.
  destruct (includes u "oauth");
    [rewrite (Ho eq_refl) | clear Ho];
    (destruct (includes u "access_token");
       [rewrite (Ha eq_refl) | clear Ha]);
    destruct (includes u "auth"), (includes u "signin"), (includes u "login"),
      (includes u "sso"), (includes u "callback"), (includes u "token"),
      (includes u "code"), (query_has_token q), (authInProgress st);
    try done.
Qed.

(* ===================================================================== *)
(** ** Further properties: the history view *)
(* ===================================================================== *)

(** X15. Opening a history row inside Electron never opens a browser
    window: either the [onOpenUrl] prop is called, or the main process
    answers the ['open-external'] message with the "External Browser
    Disabled" dialog, keeps its state, and sends nothing to the view, so
    the URL is loaded nowhere. [window.open] is reached in browser mode
    only. *)
Theorem history_open_stays_inside `{UrlLibrary}
    (hasOnOpenUrl : bool) (u : string) (st : MainState) :
  (forall t, WindowOpenBlank t ∉ handleOpenUrl hasOnOpenUrl true u) /\
  main_run st (ui_to_main (handleOpenUrl hasOnOpenUrl true u)) =
    (st, if hasOnOpenUrl then []
         else [ShowMessageBox external_disabled_title external_disabled_message]) /\
  ipc_to_renderer
    (main_run st (ui_to_main (handleOpenUrl hasOnOpenUrl true u))).2 = [] /\
  handleOpenUrl false false u = [WindowOpenBlank u].
Proof.
  destruct hasOnOpenUrl; simpl.
  - split; [|done]. intros t. rewrite elem_of_cons, elem_of_nil.
    by intros [[=]|[]].
  - split; [|done]. intros t. rewrite elem_of_cons, elem_of_nil.
    by intros [[=]|[]].
Qed.

Lemma includes_empty s : includes s "" = true.
Proof. by destruct s. Qed.

(** X16. With an empty search term the filter of the history view removes
    nothing, whatever the entries are (the engine's [toLowerCase] maps the
    empty string to itself). *)
Theorem empty_search_keeps_all
    (toLowerCase : string -> string) (number_toString : Z -> string)
    (h : list HistoryEntry) :
  toLowerCase "" = "" ->
  filtered_history toLowerCase number_toString "" h = h.
Proof.
  intros Hlow. unfold filtered_history.
  induction h as [|item h IH]; [done|].
  cbn [List.filter]. unfold matches_search at 1.
  rewrite Hlow, includes_empty. simpl. by rewrite IH.
Qed.

Lemma empty_search_keeps_all_witness :
  let h := [ {| url := "https://Example.com/A"; timestamp := "T1";
                batchId := None |};
             {| url := "https://example.com/b"; timestamp := "T2";
                batchId := Some 0%Z |} ] in
  toLowerCase_ascii "" = "" /\
  filtered_history toLowerCase_ascii (fun _ => "0") "" h = h.
Proof.
  cbv zeta. split; [reflexivity|].
  apply (empty_search_keeps_all toLowerCase_ascii (fun _ => "0")). reflexivity.
Defined.

(** X17. A batch id of [0] is treated as no batch: the row shows "N/A",
    and the entry is found through its URL only, also when the search term
    is the text of the number. An entry with a non-zero batch id is found
    whenever the text of its number contains the term. *)
Theorem batch_zero_is_no_batch
    (toLowerCase : string -> string) (number_toString : Z -> string)
    (searchTerm : string) (item : HistoryEntry) :
  (batchId item = Some 0%Z ->
     batch_cell number_toString item = "N/A" /\
     matches_search toLowerCase number_toString searchTerm item
       = includes (toLowerCase (url item)) (toLowerCase searchTerm)) /\
  (forall n, batchId item = Some n -> n <> 0%Z ->
     includes (number_toString n) searchTerm = true ->
     batch_cell number_toString item = number_toString n /\
     matches_search toLowerCase number_toString searchTerm item = true).
Proof.
  unfold batch_cell, matches_search. split.
  - intros ->. simpl. by rewrite orb_false_r.
  - intros n -> Hn Hin. apply Z.eqb_neq in Hn. rewrite Hn, Hin. simpl.
    by rewrite orb_true_r.
Qed.

Lemma batch_zero_is_no_batch_witness :
  let item := {| url := "https://example.com/b"; timestamp := "T";
                 batchId := Some 0%Z |} in
  batchId item = Some 0%Z /\
  matches_search toLowerCase_ascii (fun _ => "0") "0" item = false /\
  batch_cell (fun _ => "0") item = "N/A".
Proof.
  cbv zeta. split; [reflexivity|].
  destruct (batch_zero_is_no_batch toLowerCase_ascii (fun _ => "0") "0"
              {| url := "https://example.com/b"; timestamp := "T";
                 batchId := Some 0%Z |}) as [Hzero _].
  destruct (Hzero eq_refl) as [Hcell Hmatch].
  split; [rewrite Hmatch; reflexivity | exact Hcell].
Defined.

(* ===================================================================== *)
(** ** Further properties: the packaging script *)
(* ===================================================================== *)

Section BuildFacts.
Import Build.

Lemma app_in_dirs (d : gset string) : "app" ∈ ({["app"]} ∪ d : gset string).
Proof. apply elem_of_union_l. by apply elem_of_singleton. Qed.

Lemma not_in_app_dirs (d : gset string) (dst : string) :
  dst <> "app" -> dst ∉ d -> dst ∉ ({["app"]} ∪ d : gset string).
Proof.
  intros Hne Hd [Hin%elem_of_singleton|Hin]%elem_of_union; done.
Qed.

Lemma app_dirs_absorb (d : gset string) :
  "app" ∈ d -> ({["app"]} ∪ d : gset string) = d.
Proof.
  intros Hin. apply subseteq_union_1_L. by apply singleton_subseteq_l.
Qed.

Lemma app_dir_ready fs :
  files fs !! "app" = None ->
  (if existsSync fs "app" then fs else mkdirSync fs "app")
  = {| files := files fs; dirs := {["app"]} ∪ dirs fs |}.
Proof.
  intros Hfile. unfold existsSync. rewrite Hfile.
  rewrite (bool_decide_eq_false_2 (is_Some None)) by (by intros [? ?]).
  rewrite orb_false_r. case_bool_decide as Hd; simpl; [|done].
  destruct fs as [f d]. simpl in *. f_equal. symmetry. by apply app_dirs_absorb.
Qed.

Lemma put_file_ok g dst c :
  "app" ∈ dirs g -> dst ∉ dirs g ->
  put_file g "app" dst c
  = Normal {| files := <[dst := c]> (files g); dirs := dirs g |}.
Proof.
  intros Hdir Hdst. unfold put_file.
  by rewrite (bool_decide_eq_true_2 _ Hdir), (bool_decide_eq_false_2 _ Hdst).
Qed.

Lemma copy_file_ok g src dst c :
  files g !! src = Some c -> "app" ∈ dirs g -> dst ∉ dirs g ->
  copyFileSync g src "app" dst
  = Normal {| files := <[dst := c]> (files g); dirs := dirs g |}.
Proof.
  intros Hsrc Hdir Hdst. unfold copyFileSync. rewrite Hsrc.
  by apply put_file_ok.
Qed.

(** X18. With [electron.js] and a well-formed [package.json] in place but
    no [preload.js] (neither a file nor a directory of that name), the
    script stops with the "no such file" exception of [copyFileSync]: the
    build is never started and [app/package.json] is not written, but the
    [app] directory exists and [app/electron.js] has already been
    copied. *)
Theorem build_needs_preload (buildOk : bool) (fs : FileSystem)
    (c : content) (p : PackageJson) :
  files fs !! "electron.js" = Some c ->
  files fs !! "package.json" = Some (Package p) ->
  files fs !! "preload.js" = None ->
  "preload.js" ∉ dirs fs ->
  files fs !! "app" = None ->
  "app/electron.js" ∉ dirs fs ->
  build_script buildOk fs =
    (Thrown "ENOENT",
     {| files := <["app/electron.js" := c]> (files fs);
        dirs := {["app"]} ∪ dirs fs |},
     []).
Proof.
  intros He Hj Hp Hpd Happ Hd. unfold build_script, build_statements.
  rewrite Hj, (app_dir_ready fs Happ).
  rewrite (copy_file_ok _ "electron.js" "app/electron.js" c)
    by (cbn [files dirs];
        first [done | apply app_in_dirs | by apply not_in_app_dirs]).
  unfold copyFileSync. cbn [files dirs].
  rewrite lookup_insert_ne by done. rewrite Hp.
  rewrite bool_decide_eq_false_2 by (by apply not_in_app_dirs).
  done.
Qed.

Lemma build_needs_preload_witness :
  let p := {| pkg_name := Some "url-opener"; pkg_version := Some "1.0.0";
              pkg_description := None; pkg_main := Some "public/electron.js";
              pkg_author := None |} in
  let fs := {| files := {[ "electron.js" := Text "main";
                           "package.json" := Package p ]};
               dirs := ∅ |} in
  (build_script true fs).1.1 = Thrown "ENOENT" /\
  (build_script true fs).2 = [] /\
  files (build_script true fs).1.2 !! "app/package.json" = None.
Proof.
  cbv zeta.
  rewrite (build_needs_preload true
             {| files := {[ "electron.js" := Text "main";
                            "package.json" :=
                              Package {| pkg_name := Some "url-opener";
                                         pkg_version := Some "1.0.0";
                                         pkg_description := None;
                                         pkg_main := Some "public/electron.js";
                                         pkg_author := None |} ]};
                dirs := ∅ |} (Text "main")
             {| pkg_name := Some "url-opener"; pkg_version := Some "1.0.0";
                pkg_description := None; pkg_main := Some "public/electron.js";
                pkg_author := None |});
    [|done || apply not_elem_of_empty ..].
  cbn [fst snd files]. split; [reflexivity|]. split; reflexivity.
Defined.

(** X19. With [electron.js], [preload.js] and a well-formed
    [package.json] in place the script completes: [app] holds copies of the
    two scripts and a [package.json] with the name, version, description
    and author of the original and ["electron.js"] as main entry; no other
    file is touched and the build is started exactly once. Running the
    script again on the result leaves the file system as it is. *)
Theorem build_completes (buildOk : bool) (fs : FileSystem)
    (c1 c2 : content) (p : PackageJson) :
  files fs !! "electron.js" = Some c1 ->
  files fs !! "preload.js" = Some c2 ->
  files fs !! "package.json" = Some (Package p) ->
  files fs !! "app" = None ->
  "app/electron.js" ∉ dirs fs -> "app/preload.js" ∉ dirs fs ->
  "app/package.json" ∉ dirs fs ->
  let fs' :=
    {| files :=
         <["app/package.json" := Package (appPackageJson p)]>
           (<["app/preload.js" := c2]>
              (<["app/electron.js" := c1]> (files fs)));
       dirs := {["app"]} ∪ dirs fs |} in
  let out := [BuildLog "Starting build process..."; StartBuild;
              if buildOk then BuildLog "Build completed successfully"
              else BuildError "Error during build:"] in
  build_script buildOk fs = (Normal tt, fs', out) /\
  build_script buildOk fs' = (Normal tt, fs', out).
Proof.
  intros He Hp Hj Happ Hd1 Hd2 Hd3. cbv zeta.
  assert (Hrun : forall g : FileSystem,
    files g !! "electron.js" = Some c1 ->
    files g !! "preload.js" = Some c2 ->
    files g !! "package.json" = Some (Package p) ->
    files g !! "app" = None ->
    "app/electron.js" ∉ dirs g -> "app/preload.js" ∉ dirs g ->
    "app/package.json" ∉ dirs g ->
    build_script buildOk g =
      (Normal tt,
       {| files :=
            <["app/package.json" := Package (appPackageJson p)]>
              (<["app/preload.js" := c2]>
                 (<["app/electron.js" := c1]> (files g)));
          dirs := {["app"]} ∪ dirs g |},
       [BuildLog "Starting build process..."; StartBuild;
        if buildOk then BuildLog "Build completed successfully"
        else BuildError "Error during build:"])).
  { intros g Ge Gp Gj Gapp G1 G2 G3. unfold build_script, build_statements.
    rewrite Gj, (app_dir_ready g Gapp).
    rewrite (copy_file_ok _ "electron.js" "app/electron.js" c1)
      by (cbn [files dirs];
        first [done | apply app_in_dirs | by apply not_in_app_dirs]).
    rewrite (copy_file_ok _ "preload.js" "app/preload.js" c2)
      by (cbn [files dirs]; rewrite ?lookup_insert_ne by done;
          first [done | apply app_in_dirs | by apply not_in_app_dirs]).
    unfold require_package. cbn [files dirs].
    rewrite !lookup_insert_ne by done. rewrite Gj.
    rewrite put_file_ok
      by (cbn [files dirs];
          first [apply app_in_dirs | by apply not_in_app_dirs]).
    done. }
  split; [by apply Hrun|].
  rewrite Hrun; cbn [files dirs];
    rewrite ?lookup_insert_ne by done;
    try first [done | by apply not_in_app_dirs].
  f_equal. f_equal. f_equal.
  - apply map_eq. intros k. rewrite !lookup_insert.
    repeat case_decide; done.
  - apply app_dirs_absorb, app_in_dirs.
Qed.

Lemma build_completes_witness :
  let p := {| pkg_name := Some "url-opener"; pkg_version := Some "1.0.0";
              pkg_description := None; pkg_main := Some "public/electron.js";
              pkg_author := None |} in
  let fs := {| files := {[ "electron.js" := Text "main";
                           "preload.js" := Text "preload";
                           "package.json" := Package p ]};
               dirs := ∅ |} in
  (build_script true fs).1.1 = Normal tt /\
  files (build_script true fs).1.2 !! "app/package.json"
    = Some (Package (appPackageJson p)).
Proof.
  cbv zeta.
  destruct (build_completes true
              {| files := {[ "electron.js" := Text "main";
                             "preload.js" := Text "preload";
                             "package.json" :=
                               Package {| pkg_name := Some "url-opener";
                                          pkg_version := Some "1.0.0";
                                          pkg_description := None;
                                          pkg_main := Some "public/electron.js";
                                          pkg_author := None |} ]};
                 dirs := ∅ |}
              (Text "main") (Text "preload")
              {| pkg_name := Some "url-opener"; pkg_version := Some "1.0.0";
                 pkg_description := None; pkg_main := Some "public/electron.js";
                 pkg_author := None |}) as [Hrun _];
    [done || apply not_elem_of_empty ..|].
  rewrite Hrun. split; [reflexivity|]. cbn [fst snd files].
  apply lookup_insert_eq.
Defined.

End BuildFacts.
